(** * The data synchronisation layer of the traffic dashboard

    A shallow embedding of [frontend/src/services/dataService.ts]: the
    caching fetcher with retry and backoff ([DataService]) and the
    subscription hub that shares one polling timer per stream key
    ([RealTimeManager]), followed by the properties proved about them.

    JavaScript runs this code on a single-threaded event loop.  The model
    runs an [async] function to completion before the next one starts,
    except for the promises that are started together and awaited with
    [Promise.allSettled], which overlap ([allSettled]); the network, the
    clock and the subscriber callbacks are inputs of the model, gathered
    in [Env].  Numbers in JSON values, limits and delays
    are integers ([Math.pow(2, i) * 1000]
    is exact for every retry count in use), and a subscriber callback
    either returns or throws: callbacks that call back into the hub are
    outside the model. *)

From stdpp Require Import gmap strings list fin_maps pretty sorting.
From Stdlib Require Import ZArith QArith Lia Ascii.

Local Open Scope Z_scope.
Local Set Warnings "-register-all".

(** ** Values, errors and observable events *)

(** Parsed JSON, plus JavaScript's [undefined].  Numbers are integers: no
    property below depends on fractional values. *)
Inductive JSON : Type :=
| JUndefined
| JNull
| JBool (b : bool)
| JNum (n : Z)
| JStr (s : string)
| JArr (items : list JSON)
| JObj (fields : list (string * JSON)).

Global Instance JSON_eq_dec : EqDecision JSON.
Proof.
  refine (fix go (a b : JSON) : Decision (a = b) :=
            let _ : EqDecision JSON := @go in
            match a, b with
            | JUndefined, JUndefined => left _
            | JNull, JNull => left _
            | JBool x, JBool y => cast_if (decide (x = y))
            | JNum x, JNum y => cast_if (decide (x = y))
            | JStr x, JStr y => cast_if (decide (x = y))
            | JArr x, JArr y => cast_if (decide (x = y))
            | JObj x, JObj y => cast_if (decide (x = y))
            | _, _ => right _
            end); congruence.
Defined.

(** A subscriber callback is a function reference; the hub only ever uses
    its identity (membership in a [Set]) and calls it. *)
Definition Callback : Type := nat.

(** What a [catch] clause of the module can receive: [fetch] rejecting,
    the [Error] built at line 73 for a response that is not ok,
    [response.json()] rejecting, whatever a subscriber callback threw, or
    the [TypeError] of reading a property of [undefined]. *)
Inductive Error : Type :=
| NetworkError
| HttpError (message : string)
| ParseError
| CallbackError (cb : Callback)
| TypeError.


(** Effects visible from outside, in the order they happen. *)
Inductive Event : Type :=
| EFetch (url : string)
| ESleep (ms : Z)
| EConsoleError (msg : string) (err : Error)
| EConsoleWarn (msg : string)
| EInvoke (cb : Callback) (payload : JSON).

(** ** The environment *)

(** What the backend does with one HTTP request. *)
Inductive Outcome : Type :=
| Rejects
| Responds (status : Z) (statusText : string) (body : option JSON).

Record Response : Type := mkResponse {
  status : Z;
  statusText : string;
  body : option JSON          (* [None]: [response.json()] rejects *)
}.

Record Env : Type := mkEnv {
  respond : string -> nat -> Outcome;  (* answer to the n-th request of a URL *)
  elapsed : string -> nat -> Z;        (* clock time that request takes *)
  cb_throws : Callback -> JSON -> bool; (* does the callback throw on this payload *)
  toISOString : Z -> string;           (* [new Date(t).toISOString()] *)
  form_encode : string -> string       (* URLSearchParams value encoding *)
}.

(** ** State and the effect monad *)

Record CacheEntry : Type := mkEntry { data : JSON; timestamp : Z }.

Global Instance CacheEntry_eq_dec : EqDecision CacheEntry.
Proof. solve_decision. Defined.

Record World : Type := mkWorld {
  cache : gmap string CacheEntry;   (* [DataService.cache] *)
  now : Z;                          (* what [Date.now()] returns *)
  trace : list Event
}.

Inductive Result (A : Type) : Type :=
| Ok (a : A)
| Throw (e : Error).
Arguments Ok {A} a.
Arguments Throw {A} e.

Definition M (A : Type) : Type := World -> Result A * World.

Definition ret {A} (a : A) : M A := fun w => (Ok a, w).

Definition throw {A} (e : Error) : M A := fun w => (Throw e, w).

Definition bind {A B} (m : M A) (k : A -> M B) : M B :=
  fun w => match m w with
           | (Ok a, w') => k a w'
           | (Throw e, w') => (Throw e, w')
           end.

Definition try_catch {A} (m : M A) (handler : Error -> M A) : M A :=
  fun w => match m w with
           | (Ok a, w') => (Ok a, w')
           | (Throw e, w') => handler e w'
           end.

(** stdpp's monad notations [x ← m; k] and [m;; k] are used for [M]. *)
Global Instance M_ret : MRet M := @ret.
Global Instance M_bind : MBind M := fun A B k m => bind m k.

Definition emit (e : Event) : M unit :=
  fun w => (Ok tt, mkWorld (cache w) (now w) (trace w ++ [e])).

Definition Date_now : M Z := fun w => (Ok (now w), w).

Definition cache_get (key : string) : M (option CacheEntry) :=
  fun w => (Ok (cache w !! key), w).

Definition cache_set (key : string) (e : CacheEntry) : M unit :=
  fun w => (Ok tt, mkWorld (<[key := e]> (cache w)) (now w) (trace w)).

Definition console_error (msg : string) (err : Error) : M unit :=
  emit (EConsoleError msg err).

Definition console_warn (msg : string) : M unit := emit (EConsoleWarn msg).

(** [await new Promise(resolve => setTimeout(resolve, ms))] *)
Definition sleep (ms : Z) : M unit :=
  fun w => (Ok tt, mkWorld (cache w) (now w + ms) (trace w ++ [ESleep ms])).

Definition is_fetch_of (url : string) (e : Event) : bool :=
  match e with
  | EFetch u => String.eqb u url
  | _ => false
  end.

Definition is_fetch (e : Event) : bool :=
  match e with
  | EFetch _ => true
  | _ => false
  end.

(** Number of HTTP requests in a trace, to one URL and in all. *)
Definition requests_to (url : string) (t : list Event) : nat :=
  length (List.filter (is_fetch_of url) t).

Definition network_calls (t : list Event) : nat :=
  length (List.filter is_fetch t).

Definition delays (t : list Event) : list Z :=
  omap (fun e => match e with ESleep ms => Some ms | _ => None end) t.

Definition invocations (t : list Event) : list (Callback * JSON) :=
  omap (fun e => match e with EInvoke cb v => Some (cb, v) | _ => None end) t.

(** [await fetch(url)] *)
Definition fetch (env : Env) (url : string) : M Response :=
  fun w =>
    let n := requests_to url (trace w) in
    let w' := mkWorld (cache w) (now w + elapsed env url n)
                      (trace w ++ [EFetch url]) in
    match respond env url n with
    | Rejects => (Throw NetworkError, w')
    | Responds st txt b => (Ok (mkResponse st txt b), w')
    end.

(** [response.ok]: the status is in the range 200-299. *)
Definition response_ok (r : Response) : bool :=
  (200 <=? status r) && (status r <=? 299).

(** [await response.json()] *)
Definition response_json (r : Response) : M JSON :=
  match body r with
  | Some v => mret v
  | None => throw ParseError
  end.

(** ** Promises started together *)

(** [Promise.allSettled] turns every promise into a record of its
    outcome and never rejects. *)
Inductive Settled : Type :=
| Fulfilled (value : JSON)
| Rejected (reason : Error).

Definition settled (r : Result JSON) : Settled :=
  match r with
  | Ok v => Fulfilled v
  | Throw e => Rejected e
  end.

(** The clock time an event of the trace takes: a request lasts until it
    is answered, a delay until its timer fires.  [seen] is the trace
    before the event. *)
Definition duration (env : Env) (seen : list Event) (e : Event) : Z :=
  match e with
  | EFetch url => elapsed env url (requests_to url seen)
  | ESleep ms => ms
  | _ => 0
  end.

(** The events a computation started at time [t] has [added] to the trace
    [seen], each with the time at which it happens. *)
Fixpoint stamp (env : Env) (t : Z) (seen added : list Event)
    : list (Z * Event) :=
  match added with
  | [] => []
  | e :: rest => (t, e) :: stamp env (t + duration env seen e) (seen ++ [e]) rest
  end.

Definition not_later (x y : Z * Event) : Prop := x.1 <= y.1.

Global Instance not_later_dec : RelDecision not_later.
Proof. intros x y. unfold not_later. apply _. Defined.

(** One promise followed on its own from the world in which it was
    started: its outcome, the cache entries it has written, the time at
    which it settles and its events with their times. *)
Record Settlement : Type := mkSettlement {
  outcome : Settled;
  written : gmap string CacheEntry;
  finished : Z;
  timeline : list (Z * Event)
}.

Definition follow (env : Env) (w : World) (p : M JSON) : Settlement :=
  let (r, w') := p w in
  mkSettlement
    (settled r)
    (filter (fun ke => cache w !! ke.1 ≠ Some ke.2) (cache w'))
    (now w')
    (stamp env (now w) (trace w) (drop (length (trace w)) (trace w'))).

(** [await Promise.allSettled([p1, ..., pn])] for promises started one
    after the other without an [await] in between.  Each [async] body runs
    at once up to its first [await], so every promise reads the cache and
    the clock of the moment of the call; from there the promises advance
    as their requests are answered and their timers fire.  The promises
    are taken to use different cache keys and URLs, as the endpoint calls
    of [loadAllData] do, so each one proceeds as it would alone: the
    cache receives what each has written, the events are merged by their
    times (the earlier promise first when times are equal), and the
    array is there when the last promise has settled. *)
Definition allSettled (env : Env) (promises : list (M JSON)) : M (list Settled) :=
  fun w =>
    let runs := follow env w <$> promises in
    (Ok (outcome <$> runs),
     mkWorld (foldr (fun run c => written run ∪ c) (cache w) runs)
             (foldr Z.max (now w) (finished <$> runs))
             (trace w ++ (foldr (list_merge not_later) [] (timeline <$> runs)).*2)).

(** ** DataService *)

Module DataService.

Definition baseUrl : string := "http://localhost:8002".

Definition cacheTimeout : Z := 5 * 60 * 1000.

Definition default_retries : nat := 3.

(** The body of the [try] block, lines 71-81: one request; on success
    the response is cached under the endpoint and returned. *)
Definition attempt (env : Env) (endpoint : string) : M JSON :=
  response ← fetch env (baseUrl +:+ endpoint);
  if negb (response_ok response)
  then throw (HttpError ("HTTP " +:+ pretty (status response) +:+ ": "
                         +:+ statusText response))
  else
    v ← response_json response;
    t ← Date_now;
    cache_set endpoint (mkEntry v t);;
    mret v.

(** The [for] loop of lines 69-97 from index [i] on, with [remaining]
    iterations left ([remaining = retries - i]).  Falling out of the loop
    returns [undefined]. *)
Fixpoint retry_loop (env : Env) (endpoint : string)
    (cached : option CacheEntry) (retries : nat)
    (remaining : nat) (i : nat) : M JSON :=
  match remaining with
  | O => mret JUndefined
  | S remaining' =>
    try_catch (attempt env endpoint)
      (fun error =>
         console_error ("Attempt " +:+ pretty (Z.of_nat i + 1) +:+ " failed:")
                       error;;
         if Z.of_nat i =? Z.of_nat retries - 1
         then
           match cached with
           | Some c =>
             console_warn "Using expired cached data due to fetch failure";;
             mret (data c)
           | None => throw error
           end
         else
           sleep (2 ^ Z.of_nat i * 1000);;
           retry_loop env endpoint cached retries remaining' (S i))
  end.

Definition fetchWithRetry (env : Env) (endpoint : string) (retries : nat)
    : M JSON :=
  cached ← cache_get endpoint;
  t ← Date_now;
  match cached with
  | Some c =>
    if t - timestamp c <? cacheTimeout
    then mret (data c)
    else retry_loop env endpoint cached retries retries 0
  | None => retry_loop env endpoint cached retries retries 0
  end.

Definition getCities (env : Env) : M JSON :=
  fetchWithRetry env "/cities" default_retries.

(** The endpoint of [getPredictions], lines 106-112: [city] is appended
    when it is a non-empty string other than ['all']. *)
Definition predictionsEndpoint (env : Env) (limit : Z) (city : option string)
    : string :=
  let params := "limit=" +:+ pretty limit in
  let params :=
    match city with
    | Some c =>
      if negb (String.eqb c "") && negb (String.eqb c "all")
      then params +:+ "&city=" +:+ form_encode env c
      else params
    | None => params
    end in
  "/predictions?" +:+ params.

(** [limit] defaults to 50 at the call site. *)
Definition getPredictions (env : Env) (limit : Z) (city : option string)
    : M JSON :=
  fetchWithRetry env (predictionsEndpoint env limit city) default_retries.

Definition getMetrics (env : Env) : M JSON :=
  fetchWithRetry env "/analytics/metrics" default_retries.

Definition historicalEndpoint (hours : Z) : string :=
  "/analytics/historical?hours=" +:+ pretty hours.

(** [hours] defaults to 24 at the call site. *)
Definition getHistoricalData (env : Env) (hours : Z) : M JSON :=
  fetchWithRetry env (historicalEndpoint hours) default_retries.

Definition getRealtimeTraffic (env : Env) : M JSON :=
  fetchWithRetry env "/traffic/realtime" default_retries.

Definition getHealthStatus (env : Env) : M JSON :=
  fetchWithRetry env "/health" default_retries.

Definition getModelStatus (env : Env) : M JSON :=
  fetchWithRetry env "/models/status" default_retries.

(** [r.status === 'fulfilled' ? r.value : fallback] *)
Definition value_or (r : Settled) (fallback : JSON) : JSON :=
  match r with
  | Fulfilled v => v
  | Rejected _ => fallback
  end.

Record Dashboard : Type := mkDashboard {
  cities : JSON;
  predictions : JSON;
  metrics : JSON;
  historical : JSON;
  realtime : JSON;
  health : JSON
}.

(** The fallback of lines 157-164; [iso] is [new Date().toISOString()]. *)
Definition empty_metrics (iso : string) : JSON :=
  JObj [("totalPredictions", JNum 0); ("accuracy", JNum 0);
        ("avgResponseTime", JNum 0); ("activeSegments", JNum 0);
        ("citiesMonitored", JNum 0); ("lastUpdated", JStr iso)].

Definition offline_health : JSON := JObj [("status", JStr "offline")].

(** The object literal of lines 154-168. *)
Definition assemble (iso : string)
    (cities predictions metrics historical realtime health : Settled)
    : Dashboard :=
  mkDashboard
    (value_or cities (JArr []))
    (value_or predictions (JArr []))
    (value_or metrics (empty_metrics iso))
    (value_or historical (JArr []))
    (value_or realtime (JArr []))
    (value_or health offline_health).

(** Lines 144-172.  The six calls are started in the order of the array
    and awaited together; the array that comes back has six elements, and
    the last branch stands for the [TypeError] that reading [status] of a
    missing element would raise. *)
Definition loadAllData (env : Env) : M Dashboard :=
  try_catch
    (results ← allSettled env [getCities env;
                               getPredictions env 100 None;
                               getMetrics env;
                               getHistoricalData env 24;
                               getRealtimeTraffic env;
                               getHealthStatus env];
     match results with
     | [cities; predictions; metrics; historical; realtime; health] =>
       t ← Date_now;
       mret (assemble (toISOString env t)
                      cities predictions metrics historical realtime health)
     | _ => throw TypeError
     end)
    (fun error =>
       console_error "Error loading dashboard data:" error;;
       throw error).

Definition clearCache : M unit :=
  fun w => (Ok tt, mkWorld ∅ (now w) (trace w)).

(** [getCacheInfo], lines 181-186.  A JavaScript [Map] lists its keys in
    insertion order; the cache is a finite map here, so [keys] holds
    the same keys in an order of its own. *)
Record CacheInfo : Type := mkCacheInfo { keys : list string; totalSize : nat }.

Definition getCacheInfo : M CacheInfo :=
  fun w => (Ok (mkCacheInfo (map_to_list (cache w)).*1 (size (cache w))), w).

End DataService.

(** ** RealTimeManager *)

Module RealTimeManager.

(** A repeating timer of the runtime, as [setInterval] registers it: the
    closure it runs is the polling function of [timer_key], every
    [timer_interval] milliseconds. *)
Record Timer : Type := mkTimer { timer_key : string; timer_interval : Z }.

(** The two maps of the class, together with the runtime's table of
    active timers and the next handle [setInterval] hands out.  Handles
    are positive, hence truthy, as in browsers. *)
Record Hub : Type := mkHub {
  intervals : gmap string positive;
  subscribers : gmap string (list Callback);
  timers : gmap positive Timer;
  next_handle : positive
}.

Definition empty_hub : Hub := mkHub ∅ ∅ ∅ 1%positive.

(** A JavaScript [Set] of function references keeps insertion order and
    no duplicates. *)
Definition set_add (cb : Callback) (s : list Callback) : list Callback :=
  if decide (cb ∈ s) then s else s ++ [cb].

Definition set_delete (cb : Callback) (s : list Callback) : list Callback :=
  filter (fun x => x ≠ cb) s.

(** The closure returned by [subscribe key callback _], lines 241-256. *)
Definition unsubscribe (key : string) (callback : Callback) (h : Hub) : Hub :=
  match subscribers h !! key with
  | Some subs =>
    let subs' := set_delete callback subs in
    if (length subs' =? 0)%nat
    then
      match intervals h !! key with
      | Some interval =>
        mkHub (delete key (intervals h)) (delete key (subscribers h))
              (delete interval (timers h)) (next_handle h)
      | None =>
        mkHub (intervals h) (delete key (subscribers h))
              (timers h) (next_handle h)
      end
    else
      mkHub (intervals h) (<[key := subs']> (subscribers h))
            (timers h) (next_handle h)
  | None => h
  end.

(** [subscribe] returns the closure and leaves the hub updated. *)
Definition subscribe (key : string) (callback : Callback) (intervalMs : Z)
    (h : Hub) : (Hub -> Hub) * Hub :=
  let subs := default [] (subscribers h !! key) in
  let subscribers' := <[key := set_add callback subs]> (subscribers h) in
  let h' :=
    match intervals h !! key with
    | None =>
      let interval := next_handle h in
      mkHub (<[key := interval]> (intervals h)) subscribers'
            (<[interval := mkTimer key intervalMs]> (timers h))
            (Pos.succ interval)
    | Some _ =>
      mkHub (intervals h) subscribers' (timers h) (next_handle h)
    end in
  (unsubscribe key callback, h').

Definition default_intervalMs : Z := 10000.

Definition stopAll (h : Hub) : Hub :=
  mkHub ∅ ∅
        (map_fold (fun _ interval live => delete interval live)
                  (timers h) (intervals h))
        (next_handle h).

(** Calling one subscriber: it receives the payload and may throw. *)
Definition invoke (env : Env) (cb : Callback) (payload : JSON) : M unit :=
  emit (EInvoke cb payload);;
  if cb_throws env cb payload then throw (CallbackError cb) else mret tt.

(** [subs.forEach(cb => cb(data))]: in insertion order; an exception
    leaves the loop. *)
Fixpoint forEach (env : Env) (subs : list Callback) (payload : JSON)
    : M unit :=
  match subs with
  | [] => mret tt
  | cb :: rest => invoke env cb payload;; forEach env rest payload
  end.

(** The [switch] of lines 210-225; [None] is the [default: return]. *)
Definition poll (env : Env) (key : string) : M (option JSON) :=
  if String.eqb key "predictions"
  then v ← DataService.getPredictions env 50 None; mret (Some v)
  else if String.eqb key "metrics"
  then v ← DataService.getMetrics env; mret (Some v)
  else if String.eqb key "realtime"
  then v ← DataService.getRealtimeTraffic env; mret (Some v)
  else if String.eqb key "health"
  then v ← DataService.getHealthStatus env; mret (Some v)
  else mret None.

(** The function given to [setInterval], lines 206-235.  The subscriber
    set is read from the hub when the payload is there. *)
Definition tick (env : Env) (h : Hub) (key : string) : M unit :=
  try_catch
    (polled ← poll env key;
     match polled with
     | None => mret tt
     | Some payload =>
       match subscribers h !! key with
       | Some subs => forEach env subs payload
       | None => mret tt
       end
     end)
    (fun error =>
       console_error ("Error in real-time update for " +:+ key +:+ ":")
                     error).

(** What can happen to the hub: the three operations of the class, and
    the runtime firing an active timer. *)
Inductive Op : Type :=
| Subscribe (key : string) (callback : Callback) (intervalMs : Z)
| Unsubscribe (key : string) (callback : Callback)
| StopAll
| Fire (interval : positive).

Definition step (env : Env) (op : Op) (st : Hub * World) : Hub * World :=
  match op with
  | Subscribe key cb ms => ((subscribe key cb ms st.1).2, st.2)
  | Unsubscribe key cb => (unsubscribe key cb st.1, st.2)
  | StopAll => (stopAll st.1, st.2)
  | Fire interval =>
    match timers st.1 !! interval with
    | Some t => (st.1, (tick env st.1 (timer_key t) st.2).2)
    | None => st
    end
  end.

Definition run (env : Env) (ops : list Op) (st : Hub * World) : Hub * World :=
  foldl (fun st op => step env op st) st ops.

(** The timers of the runtime that poll [key]. *)
Definition timers_of (key : string) (h : Hub) : gmap positive Timer :=
  filter (fun p => timer_key p.2 = key) (timers h).

End RealTimeManager.

(** ** Utility functions *)

(** A JavaScript number as the comparisons of lines 275-285 see it: a
    finite value, which is a rational, an infinity, or [NaN], with which
    every comparison is false. *)
Inductive Number : Type :=
| Finite (q : Q)
| NaN
| PosInfinity
| NegInfinity.

(** [x >= bound] for a finite literal [bound]. *)
Definition number_ge (x : Number) (bound : Q) : bool :=
  match x with
  | Finite q => Qle_bool bound q
  | PosInfinity => true
  | NaN | NegInfinity => false
  end.

Inductive SpeedCategory : Type := fast | moderate | slow.

Inductive TrafficStatus : Type := normal | congested | heavy.

Definition getSpeedCategory (speed : Number) : SpeedCategory :=
  if number_ge speed 25 then fast
  else if number_ge speed 15 then moderate
  else slow.

Definition getTrafficStatus (speed : Number) : TrafficStatus :=
  if number_ge speed 20 then normal
  else if number_ge speed 10 then congested
  else heavy.

(** * Properties *)

(** ** Vocabulary *)

(** A request succeeds when the response is ok and its body parses. *)
Definition payload_of (o : Outcome) : option JSON :=
  match o with
  | Rejects => None
  | Responds st _ b => if (200 <=? st) && (st <=? 299) then b else None
  end.

Definition is_failure (o : Outcome) : bool :=
  match payload_of o with
  | Some _ => false
  | None => true
  end.

(** The error a failed request raises inside [fetchWithRetry]. *)
Definition error_of (o : Outcome) : Error :=
  match o with
  | Rejects => NetworkError
  | Responds st txt b =>
    if (200 <=? st) && (st <=? 299) then ParseError
    else HttpError ("HTTP " +:+ pretty st +:+ ": " +:+ txt)
  end.

(** Number of consecutive failed requests to [url] from its [n]-th request
    on, counting at most [limit]. *)
Fixpoint leading_failures (env : Env) (url : string) (n limit : nat) : nat :=
  match limit with
  | O => O
  | S limit' =>
    if is_failure (respond env url n)
    then S (leading_failures env url (S n) limit')
    else O
  end.

(** The backoff schedule: the delays after attempts [i], [i+1], ... *)
Definition backoff (i count : nat) : list Z :=
  (fun j => 2 ^ Z.of_nat j * 1000) <$> seq i count.

(** The endpoint methods, as calls. *)
Inductive Call : Type :=
| GetCities
| GetPredictions (limit : Z) (city : option string)
| GetMetrics
| GetHistoricalData (hours : Z)
| GetRealtimeTraffic
| GetHealthStatus
| GetModelStatus.

Definition perform (env : Env) (c : Call) : M JSON :=
  match c with
  | GetCities => DataService.getCities env
  | GetPredictions limit city => DataService.getPredictions env limit city
  | GetMetrics => DataService.getMetrics env
  | GetHistoricalData hours => DataService.getHistoricalData env hours
  | GetRealtimeTraffic => DataService.getRealtimeTraffic env
  | GetHealthStatus => DataService.getHealthStatus env
  | GetModelStatus => DataService.getModelStatus env
  end.

(** The cache key of a call: its endpoint with the query parameters. *)
Definition cache_key (env : Env) (c : Call) : string :=
  match c with
  | GetCities => "/cities"
  | GetPredictions limit city => DataService.predictionsEndpoint env limit city
  | GetMetrics => "/analytics/metrics"
  | GetHistoricalData hours => DataService.historicalEndpoint hours
  | GetRealtimeTraffic => "/traffic/realtime"
  | GetHealthStatus => "/health"
  | GetModelStatus => "/models/status"
  end.

Definition url_of (endpoint : string) : string :=
  DataService.baseUrl +:+ endpoint.

(** The cache holds no fresh entry for [key]: a request will be made. *)
Definition no_fresh_entry (w : World) (key : string) : Prop :=
  match cache w !! key with
  | Some c => DataService.cacheTimeout <= now w - timestamp c
  | None => True
  end.

(** The clock moves on between two calls. *)
Definition at_time (t : Z) (w : World) : World :=
  mkWorld (cache w) t (trace w).

(** The world after the request of one attempt to [endpoint] has been
    answered. *)
Definition answered (env : Env) (endpoint : string) (w : World) : World :=
  let url := url_of endpoint in
  mkWorld (cache w)
          (now w + elapsed env url (requests_to url (trace w)))
          (trace w ++ [EFetch url]).

(** What line 83 logs when attempt [i] has failed. *)
Definition attempt_failed (env : Env) (endpoint : string) (i : nat) (w : World)
    : Event :=
  let url := url_of endpoint in
  EConsoleError ("Attempt " +:+ pretty (Z.of_nat i + 1) +:+ " failed:")
                (error_of (respond env url (requests_to url (trace w)))).

(** The world after a failed attempt [i] that is not the last one: the
    error is logged and the backoff delay has passed. *)
Definition backed_off (env : Env) (endpoint : string) (i : nat) (w : World)
    : World :=
  mkWorld (cache w)
          (now (answered env endpoint w) + 2 ^ Z.of_nat i * 1000)
          ((trace (answered env endpoint w) ++ [attempt_failed env endpoint i w])
           ++ [ESleep (2 ^ Z.of_nat i * 1000)]).

(** The world after the last attempt has failed. *)
Definition gave_up (env : Env) (endpoint : string) (i : nat) (w : World)
    : World :=
  mkWorld (cache w) (now (answered env endpoint w))
          (trace (answered env endpoint w) ++ [attempt_failed env endpoint i w]).

(** The requests to [url] fail from the [n]-th on, [count] times in a row. *)
Definition all_fail (env : Env) (url : string) (n count : nat) : Prop :=
  ∀ j, (j < count)%nat → is_failure (respond env url (n + j)) = true.

(** Sample inputs: a backend that answers HTTP 500 to the first
    [failures] requests of every URL and serves [v] afterwards, with
    subscriber callbacks that throw exactly when [throwing] says so; and
    a page that has just been loaded. *)
Definition flaky_backend (failures : nat) (v : JSON)
    (throwing : Callback -> bool) : Env :=
  mkEnv (fun _ n => if (n <? failures)%nat
                    then Responds 500 "Internal Server Error" None
                    else Responds 200 "OK" (Some v))
        (fun _ _ => 40)
        (fun cb _ => throwing cb)
        (fun _ => "2024-01-01T00:00:00.000Z")
        (fun c => c).

Definition nobody : Callback -> bool := fun _ => false.

Definition cold_start : World := mkWorld ∅ 0 [].

(** A page whose only cache entry, for [/cities], is older than the
    timeout. *)
Definition stale_page : World :=
  mkWorld {[ "/cities" := mkEntry (JArr [JStr "nyc"]) 0 ]} 400000 [].

(** The field of the dashboard fed by one endpoint call. *)
Definition field (call : Result JSON * World) (fallback : JSON) : JSON :=
  match call.1 with
  | Ok v => v
  | Throw _ => fallback
  end.

(** The keys the polling function knows. *)
Definition recognized (key : string) : bool :=
  String.eqb key "predictions" || String.eqb key "metrics"
  || String.eqb key "realtime" || String.eqb key "health".

(** The subscribers a tick reaches: those up to and including the first
    one that throws on the payload. *)
Fixpoint up_to_first_throw (env : Env) (subs : list Callback) (payload : JSON)
    : list Callback :=
  match subs with
  | [] => []
  | cb :: rest =>
    cb :: (if cb_throws env cb payload then []
           else up_to_first_throw env rest payload)
  end.

(** The first subscriber that throws on the payload, if any. *)
Fixpoint first_thrower (env : Env) (subs : list Callback) (payload : JSON)
    : option Callback :=
  match subs with
  | [] => None
  | cb :: rest =>
    if cb_throws env cb payload then Some cb
    else first_thrower env rest payload
  end.

(** What the [catch] of a tick logs for [key], line 233. *)
Definition tick_failed (key : string) (error : Error) : Event :=
  EConsoleError ("Error in real-time update for " +:+ key +:+ ":") error.

(** Several consumers subscribing to one key, one after the other. *)
Definition subscribe_all (key : string) (consumers : list (Callback * Z))
    (h : RealTimeManager.Hub) : RealTimeManager.Hub :=
  foldl (fun h c => (RealTimeManager.subscribe key c.1 c.2 h).2) h consumers.

(** The hubs a page can be in: those some sequence of operations and
    timer firings leads to from the empty hub. *)
Definition reachable (h : RealTimeManager.Hub) : Prop :=
  ∃ env ops w, (RealTimeManager.run env ops (RealTimeManager.empty_hub, w)).1 = h.

(** The consistency of the two registries with each other and with the
    runtime's timers. *)
Record consistent (h : RealTimeManager.Hub) : Prop := mkConsistent {
  same_keys : ∀ key, is_Some (RealTimeManager.intervals h !! key)
                     ↔ is_Some (RealTimeManager.subscribers h !! key);
  sets_nonempty : ∀ key subs,
    RealTimeManager.subscribers h !! key = Some subs → subs ≠ [];
  sets_nodup : ∀ key subs,
    RealTimeManager.subscribers h !! key = Some subs → NoDup subs;
  handles_live : ∀ key id,
    RealTimeManager.intervals h !! key = Some id →
    ∃ ms, RealTimeManager.timers h !! id = Some (RealTimeManager.mkTimer key ms);
  timers_owned : ∀ id t,
    RealTimeManager.timers h !! id = Some t →
    RealTimeManager.intervals h !! RealTimeManager.timer_key t = Some id;
  handles_fresh : ∀ id t,
    RealTimeManager.timers h !! id = Some t →
    (id < RealTimeManager.next_handle h)%positive
}.

(** An operation that leaves the subscriptions of [key] alone. *)
Definition spares (key : string) (op : RealTimeManager.Op) : Prop :=
  match op with
  | RealTimeManager.StopAll => False
  | RealTimeManager.Unsubscribe k _ => k ≠ key
  | _ => True
  end.

(** The events a call of [fetchWithRetry] for [url] can add to the trace:
    requests to [url], delays and console lines, never a callback call. *)
Definition fetcher_event (url : string) (e : Event) : Prop :=
  match e with
  | EFetch u => u = url
  | EInvoke _ _ => False
  | _ => True
  end.

(** The time spent in backoff delays. *)
Definition total_delay (t : list Event) : Z := foldr Z.add 0 (delays t).

(** The city filter [getPredictions] sends: none for a missing or empty
    city and for ['all']. *)
Definition effective_city (city : option string) : option string :=
  match city with
  | Some c =>
    if negb (String.eqb c "") && negb (String.eqb c "all") then Some c else None
  | None => None
  end.

(** A call with its city filter as it is sent. *)
Definition normalize (c : Call) : Call :=
  match c with
  | GetPredictions limit city => GetPredictions limit (effective_city city)
  | _ => c
  end.

(** The endpoint a tick for a recognized key asks for. *)
Definition stream_endpoint (env : Env) (key : string) : option string :=
  if String.eqb key "predictions"
  then Some (cache_key env (GetPredictions 50 None))
  else if String.eqb key "metrics" then Some (cache_key env GetMetrics)
  else if String.eqb key "realtime" then Some (cache_key env GetRealtimeTraffic)
  else if String.eqb key "health" then Some (cache_key env GetHealthStatus)
  else None.

(** Two hubs with the same registries and the same live timers; the
    next handle to hand out may differ. *)
Definition same_registries (h1 h2 : RealTimeManager.Hub) : Prop :=
  RealTimeManager.intervals h1 = RealTimeManager.intervals h2
  ∧ RealTimeManager.subscribers h1 = RealTimeManager.subscribers h2
  ∧ RealTimeManager.timers h1 = RealTimeManager.timers h2.

(** The cache holds the entry [c] for [key], younger than the timeout. *)
Definition fresh_entry (w : World) (key : string) (c : CacheEntry) : Prop :=
  cache w !! key = Some c ∧ now w - timestamp c < DataService.cacheTimeout.

(** Does a string contain the separator of query parameters. *)
Fixpoint has_amp (s : string) : bool :=
  match s with
  | EmptyString => false
  | String a s' => Ascii.eqb a "&"%char || has_amp s'
  end.

(** The classes of a speed, from worst to best. *)
Definition category_rank (c : SpeedCategory) : nat :=
  match c with
  | slow => 0
  | moderate => 1
  | fast => 2
  end.

Definition status_rank (s : TrafficStatus) : nat :=
  match s with
  | heavy => 0
  | congested => 1
  | normal => 2
  end.

(** ** Traces *)

Section Traces.

Lemma requests_to_app url t1 t2 :
  requests_to url (t1 ++ t2) = (requests_to url t1 + requests_to url t2)%nat.
Proof. unfold requests_to. by rewrite List.filter_app, length_app. Qed.

Lemma network_calls_app t1 t2 :
  network_calls (t1 ++ t2) = (network_calls t1 + network_calls t2)%nat.
Proof. unfold network_calls. by rewrite List.filter_app, length_app. Qed.

Lemma delays_app t1 t2 : delays (t1 ++ t2) = delays t1 ++ delays t2.
Proof. apply omap_app. Qed.

Lemma invocations_app t1 t2 :
  invocations (t1 ++ t2) = invocations t1 ++ invocations t2.
Proof. apply omap_app. Qed.

Lemma requests_to_fetch url : requests_to url [EFetch url] = 1%nat.
Proof. unfold requests_to. simpl. by rewrite String.eqb_refl. Qed.

End Traces.

(** ** One attempt and the retry loop *)

Section Fetcher.

Variable env : Env.
Variable endpoint : string.

Local Abbreviation url := (url_of endpoint).

Lemma perform_fetchWithRetry c :
  perform env c
  = DataService.fetchWithRetry env (cache_key env c) DataService.default_retries.
Proof. by destruct c. Qed.

Lemma attempt_spec w :
  DataService.attempt env endpoint w
  = match payload_of (respond env url (requests_to url (trace w))) with
    | Some v =>
      (Ok v, mkWorld (<[endpoint := mkEntry v (now (answered env endpoint w))]> (cache w))
                     (now (answered env endpoint w)) (trace (answered env endpoint w)))
    | None =>
      (Throw (error_of (respond env url (requests_to url (trace w)))),
       answered env endpoint w)
    end.
Proof.
  unfold url_of, DataService.attempt, answered.
  unfold mbind, M_bind, bind, fetch.
  destruct (respond env _ _) as [|st txt b]; [done|].
  unfold response_ok, payload_of, error_of. cbn [status statusText body].
  destruct ((200 <=? st) && (st <=? 299)); [|done].
  by destruct b.
Qed.

Variable cached : option CacheEntry.
Variable retries : nat.

Local Abbreviation loop := (DataService.retry_loop env endpoint cached retries).
Local Abbreviation nth_request w := (requests_to url (trace w)).

Lemma loop_success r i w v :
  payload_of (respond env url (nth_request w)) = Some v →
  loop (S r) i w
  = (Ok v, mkWorld (<[endpoint := mkEntry v (now (answered env endpoint w))]> (cache w))
                   (now (answered env endpoint w)) (trace (answered env endpoint w))).
Proof.
  intros Hv. cbn [DataService.retry_loop]. unfold try_catch.
  by rewrite attempt_spec, Hv.
Qed.

Lemma loop_failure_retry r i w :
  is_failure (respond env url (nth_request w)) = true →
  Z.of_nat i ≠ Z.of_nat retries - 1 →
  loop (S r) i w = loop r (S i) (backed_off env endpoint i w).
Proof.
  unfold is_failure. intros Hf Hi. cbn [DataService.retry_loop].
  unfold try_catch. rewrite attempt_spec.
  destruct (payload_of _); [done|].
  unfold mbind, M_bind, bind, console_error, emit. cbn [fst snd].
  destruct (Z.eqb_spec (Z.of_nat i) (Z.of_nat retries - 1)); [done|].
  reflexivity.
Qed.

Lemma loop_failure_last r i w :
  is_failure (respond env url (nth_request w)) = true →
  Z.of_nat i = Z.of_nat retries - 1 →
  loop (S r) i w
  = match cached with
    | Some c =>
      (Ok (data c),
       mkWorld (cache w) (now (answered env endpoint w))
               (trace (gave_up env endpoint i w)
                ++ [EConsoleWarn "Using expired cached data due to fetch failure"]))
    | None =>
      (Throw (error_of (respond env url (nth_request w))), gave_up env endpoint i w)
    end.
Proof.
  unfold is_failure. intros Hf Hi. cbn [DataService.retry_loop].
  unfold try_catch. rewrite attempt_spec.
  destruct (payload_of _); [done|].
  unfold mbind, M_bind, bind, console_error, emit. cbn [fst snd].
  destruct (Z.eqb_spec (Z.of_nat i) (Z.of_nat retries - 1)); [|done].
  by destruct cached.
Qed.

Lemma nth_request_backed_off i w :
  nth_request (backed_off env endpoint i w) = S (nth_request w).
Proof.
  unfold backed_off, answered, attempt_failed. cbn [trace]. rewrite !requests_to_app, requests_to_fetch.
  cbn [requests_to List.filter is_fetch_of length]. lia.
Qed.

Lemma network_calls_backed_off i w :
  network_calls (trace (backed_off env endpoint i w)) = S (network_calls (trace w)).
Proof.
  unfold backed_off, answered, attempt_failed. cbn [trace]. rewrite !network_calls_app.
  cbn [network_calls List.filter is_fetch length]. lia.
Qed.

Lemma delays_backed_off i w :
  delays (trace (backed_off env endpoint i w)) = delays (trace w) ++ [2 ^ Z.of_nat i * 1000].
Proof.
  unfold backed_off, answered, attempt_failed. cbn [trace]. rewrite !delays_app.
  cbn [delays omap list_omap]. by rewrite !app_nil_r.
Qed.

Lemma network_calls_answered w :
  network_calls (trace (answered env endpoint w)) = S (network_calls (trace w)).
Proof.
  unfold answered. cbn [trace]. rewrite network_calls_app.
  cbn [network_calls List.filter is_fetch length]. lia.
Qed.

Lemma delays_answered w : delays (trace (answered env endpoint w)) = delays (trace w).
Proof.
  unfold answered. cbn [trace]. rewrite delays_app.
  cbn [delays omap list_omap]. by rewrite app_nil_r.
Qed.

Lemma network_calls_gave_up i w :
  network_calls (trace (gave_up env endpoint i w)) = S (network_calls (trace w)).
Proof.
  unfold gave_up, answered, attempt_failed. cbn [trace]. rewrite !network_calls_app.
  cbn [network_calls List.filter is_fetch length]. lia.
Qed.

Lemma delays_gave_up i w : delays (trace (gave_up env endpoint i w)) = delays (trace w).
Proof.
  unfold gave_up, answered, attempt_failed. cbn [trace]. rewrite !delays_app.
  cbn [delays omap list_omap]. by rewrite !app_nil_r.
Qed.

Lemma backoff_cons i k : backoff i (S k) = 2 ^ Z.of_nat i * 1000 :: backoff (S i) k.
Proof. reflexivity. Qed.

(** The loop when the next [k] requests fail and the one after them
    succeeds, with iterations to spare. *)
Lemma loop_succeeds_after k : ∀ r i w v,
  (i + r = retries)%nat → (k < r)%nat →
  (∀ j, (j < k)%nat →
        is_failure (respond env url (nth_request w + j)) = true) →
  payload_of (respond env url (nth_request w + k)) = Some v →
  ∃ w', loop r i w = (Ok v, w')
        ∧ cache w' = <[endpoint := mkEntry v (now w')]> (cache w)
        ∧ network_calls (trace w') = (network_calls (trace w) + S k)%nat
        ∧ delays (trace w') = delays (trace w) ++ backoff i k.
Proof.
  induction k as [|k IH]; intros r i w v Hr Hk Hfail Hok.
  - destruct r as [|r]; [lia|]. rewrite Nat.add_0_r in Hok.
    rewrite (loop_success _ _ _ _ Hok). eexists; split; [done|].
    cbn [cache now trace]. split; [done|]. split.
    + rewrite network_calls_answered. lia.
    + rewrite delays_answered. unfold backoff. simpl. by rewrite app_nil_r.
  - destruct r as [|r]; [lia|].
    rewrite loop_failure_retry; [| | lia].
    2: { rewrite <- (Hfail 0%nat) by lia. by rewrite Nat.add_0_r. }
    destruct (IH r (S i) (backed_off env endpoint i w) v) as (w' & -> & Hc & Hn & Hd).
    + lia.
    + lia.
    + intros j Hj. rewrite nth_request_backed_off.
      replace (S (nth_request w) + j)%nat with (nth_request w + S j)%nat by lia.
      apply Hfail. lia.
    + rewrite nth_request_backed_off.
      by replace (S (nth_request w) + k)%nat with (nth_request w + S k)%nat by lia.
    + exists w'. split; [done|]. split; [done|]. split.
      * rewrite Hn, network_calls_backed_off. lia.
      * rewrite Hd, delays_backed_off, backoff_cons.
        by rewrite <- app_assoc.
Qed.

(** The loop when every request it can make fails. *)
Lemma loop_exhausted : ∀ r i w,
  (i + r = retries)%nat → (0 < r)%nat →
  (∀ j, (j < r)%nat →
        is_failure (respond env url (nth_request w + j)) = true) →
  ∃ w', loop r i w
        = (match cached with
           | Some c => Ok (data c)
           | None =>
             Throw (error_of (respond env url (nth_request w + (r - 1))))
           end, w')
        ∧ cache w' = cache w
        ∧ network_calls (trace w') = (network_calls (trace w) + r)%nat
        ∧ delays (trace w') = delays (trace w) ++ backoff i (r - 1).
Proof.
  induction r as [|r IH]; intros i w Hr Hpos Hfail; [lia|].
  assert (Hf0 : is_failure (respond env url (nth_request w)) = true).
  { rewrite <- (Hfail 0%nat) by lia. by rewrite Nat.add_0_r. }
  destruct r as [|r].
  - rewrite loop_failure_last; [|done|lia].
    cbn [Nat.sub]. rewrite Nat.add_0_r.
    destruct cached as [c|]; eexists; (split; [done|]); cbn [cache trace];
      (split; [done|]); rewrite ?network_calls_app, ?delays_app,
        ?network_calls_gave_up, ?delays_gave_up;
      cbn [network_calls List.filter is_fetch length delays omap list_omap];
      unfold backoff; simpl; rewrite ?app_nil_r; split; (done || lia).
  - rewrite loop_failure_retry; [|done|lia].
    destruct (IH (S i) (backed_off env endpoint i w)) as (w' & -> & Hc & Hn & Hd).
    + lia.
    + lia.
    + intros j Hj. rewrite nth_request_backed_off.
      replace (S (nth_request w) + j)%nat with (nth_request w + S j)%nat by lia.
      apply Hfail. lia.
    + exists w'. rewrite nth_request_backed_off. split.
      { by replace (S (nth_request w) + (S r - 1))%nat
          with (nth_request w + (S (S r) - 1))%nat by lia. }
      split; [done|]. split.
      * rewrite Hn, network_calls_backed_off. lia.
      * rewrite Hd, delays_backed_off.
        replace (S (S r) - 1)%nat with (S (S r - 1)) by lia.
        rewrite backoff_cons. by rewrite <- app_assoc.
Qed.

(** The delays a run of the loop schedules, whatever the backend does:
    one per failed attempt that is not the last. *)
Lemma loop_delays : ∀ r i w,
  (i + r = retries)%nat →
  delays (trace (loop r i w).2)
  = delays (trace w)
    ++ backoff i (leading_failures env url (nth_request w) (r - 1)).
Proof.
  induction r as [|r IH]; intros i w Hr.
  { simpl. unfold backoff. simpl. by rewrite app_nil_r. }
  destruct (payload_of (respond env url (nth_request w))) as [v|] eqn:Hp.
  - rewrite (loop_success _ _ _ _ Hp). cbn [snd trace].
    rewrite delays_answered.
    replace (leading_failures env url (nth_request w) (S r - 1)) with 0%nat.
    { unfold backoff. simpl. by rewrite app_nil_r. }
    destruct r as [|r]; [done|]. cbn. unfold is_failure. by rewrite Hp.
  - assert (Hf : is_failure (respond env url (nth_request w)) = true).
    { unfold is_failure. by rewrite Hp. }
    destruct r as [|r].
    + rewrite loop_failure_last; [|done|lia].
      destruct cached; cbn [snd trace]; rewrite ?delays_app, ?delays_gave_up;
        cbn [delays omap list_omap leading_failures Nat.sub];
        unfold backoff; simpl; by rewrite ?app_nil_r.
    + rewrite loop_failure_retry; [|done|lia].
      rewrite IH by lia. rewrite delays_backed_off, nth_request_backed_off.
      replace (S (S r) - 1)%nat with (S r) by lia.
      replace (S r - 1)%nat with r by lia.
      cbn [leading_failures]. rewrite Hf, backoff_cons.
      by rewrite <- app_assoc.
Qed.

End Fetcher.

(** ** The cache in front of the loop *)

Section Caching.

Variable env : Env.

Lemma fetchWithRetry_fresh endpoint retries w c :
  cache w !! endpoint = Some c →
  now w - timestamp c < DataService.cacheTimeout →
  DataService.fetchWithRetry env endpoint retries w = (Ok (data c), w).
Proof.
  intros Hc Hfresh. unfold DataService.fetchWithRetry.
  unfold mbind, M_bind, bind, cache_get, Date_now. rewrite Hc.
  by destruct (Z.ltb_spec (now w - timestamp c) DataService.cacheTimeout); [|lia].
Qed.

Lemma fetchWithRetry_miss endpoint retries w :
  no_fresh_entry w endpoint →
  DataService.fetchWithRetry env endpoint retries w
  = DataService.retry_loop env endpoint (cache w !! endpoint) retries retries 0 w.
Proof.
  unfold no_fresh_entry, DataService.fetchWithRetry.
  unfold mbind, M_bind, bind, cache_get, Date_now.
  destruct (cache w !! endpoint) as [c|]; [|done]. intros Hstale.
  by destruct (Z.ltb_spec (now w - timestamp c) DataService.cacheTimeout); [lia|].
Qed.

(** A call that goes to the network makes at most [retries] requests:
    it returns the first payload it gets, and when all [retries]
    requests fail it falls back on the entry it found at the start or
    raises the last error. *)
Lemma retry_budget endpoint retries w :
  no_fresh_entry w endpoint →
  let url := url_of endpoint in
  let n := requests_to url (trace w) in
  let call := DataService.fetchWithRetry env endpoint retries w in
  (∀ k v, (k < retries)%nat → all_fail env url n k →
          payload_of (respond env url (n + k)) = Some v →
          call.1 = Ok v
          ∧ network_calls (trace call.2) = (network_calls (trace w) + S k)%nat)
  ∧ ((0 < retries)%nat → all_fail env url n retries →
     call.1 = match cache w !! endpoint with
              | Some c => Ok (data c)
              | None => Throw (error_of (respond env url (n + (retries - 1))))
              end
     ∧ network_calls (trace call.2) = (network_calls (trace w) + retries)%nat).
Proof.
  intros Hmiss url n call. subst call.
  rewrite (fetchWithRetry_miss _ _ _ Hmiss). split.
  - intros k v Hk Hfail Hv.
    destruct (loop_succeeds_after env endpoint (cache w !! endpoint)
                retries k retries 0 w v)
      as (w' & -> & _ & Hn & _); done.
  - intros Hpos Hfail.
    destruct (loop_exhausted env endpoint (cache w !! endpoint)
                retries retries 0 w)
      as (w' & -> & _ & Hn & _); done.
Qed.

(** Either every one of [count] requests fails or there is a first one
    that succeeds. *)
Lemma first_success url n count :
  all_fail env url n count
  ∨ ∃ k v, (k < count)%nat ∧ all_fail env url n k
           ∧ payload_of (respond env url (n + k)) = Some v.
Proof.
  induction count as [|count [IH|(k & v & Hk & Hf & Hv)]].
  - left. intros j Hj. lia.
  - destruct (payload_of (respond env url (n + count))) as [v|] eqn:Hp.
    + right. exists count, v. auto.
    + left. intros j Hj. destruct (decide (j = count)) as [->|].
      * unfold is_failure. by rewrite Hp.
      * apply IH. lia.
  - right. exists k, v. split; [lia|done].
Qed.

Lemma all_fail_no_payload url n count k v :
  all_fail env url n count → (k < count)%nat →
  payload_of (respond env url (n + k)) = Some v → False.
Proof.
  intros Hf Hk Hv. specialize (Hf k Hk). unfold is_failure in Hf.
  by rewrite Hv in Hf.
Qed.

Lemma leading_failures_all_fail url : ∀ limit n k,
  all_fail env url n k → (k ≤ limit)%nat →
  (k ≤ leading_failures env url n limit)%nat.
Proof.
  induction limit as [|limit IH]; intros n k Hf Hk; [lia|].
  destruct k as [|k]; [lia|]. cbn [leading_failures].
  rewrite <- (Nat.add_0_r n) at 1. rewrite (Hf 0%nat) by lia.
  apply le_n_S, IH; [|lia]. intros j Hj.
  replace (S n + j)%nat with (n + S j)%nat by lia. apply Hf. lia.
Qed.

Lemma lookup_backoff i count j :
  (j < count)%nat → backoff i count !! j = Some (2 ^ Z.of_nat (i + j) * 1000).
Proof.
  intros Hj. unfold backoff. rewrite list_lookup_fmap.
  by rewrite lookup_seq_lt.
Qed.

End Caching.

(** ** The retry budget *)

(** C1, as the code has it: with the default configuration the operation
    makes three attempts in all.  When the backend fails on each of the
    first [k] attempts, [k] at most 2, and succeeds on the next, the caller
    receives the successful value, no error is raised and [k+1] requests
    were made.  When it fails on each of the three attempts the operation
    ends there, after exactly three requests: with the cached value when
    the key has an entry, with the error of the third attempt otherwise. *)
Theorem fetchWithRetry_three_attempts env endpoint w :
  no_fresh_entry w endpoint →
  let url := url_of endpoint in
  let n := requests_to url (trace w) in
  let call := DataService.fetchWithRetry env endpoint DataService.default_retries w in
  (∀ k v, (k < 3)%nat → all_fail env url n k →
          payload_of (respond env url (n + k)) = Some v →
          call.1 = Ok v
          ∧ network_calls (trace call.2) = (network_calls (trace w) + S k)%nat)
  ∧ (all_fail env url n 3 →
     call.1 = match cache w !! endpoint with
              | Some c => Ok (data c)
              | None => Throw (error_of (respond env url (n + 2)))
              end
     ∧ network_calls (trace call.2) = (network_calls (trace w) + 3)%nat).
Proof.
  intros Hmiss url n call.
  destruct (retry_budget env endpoint DataService.default_retries w Hmiss)
    as [Hok Hall].
  split; [exact Hok|]. intros Hfail. apply Hall; [|exact Hfail].
  unfold DataService.default_retries. lia.
Qed.

Lemma fetchWithRetry_three_attempts_witness :
  (DataService.fetchWithRetry (flaky_backend 2 (JNum 7) nobody) "/cities"
     DataService.default_retries cold_start).1 = Ok (JNum 7).
Proof.
  pose proof (fetchWithRetry_three_attempts
                (flaky_backend 2 (JNum 7) nobody) "/cities" cold_start) as H.
  destruct H as [H _]; [exact I|].
  apply (H 2%nat (JNum 7)).
  - lia.
  - intros j Hj. destruct j as [|[|j]]; [reflexivity|reflexivity|lia].
  - reflexivity.
Defined.

(** C1 as stated fails: three HTTP 500 answers use up the default budget,
    and the value a 4th request would fetch is never asked for. *)
Lemma fetchWithRetry_no_fourth_attempt :
  let env := flaky_backend 3 (JNum 7) nobody in
  let url := url_of "/cities" in
  let call := DataService.fetchWithRetry env "/cities"
                DataService.default_retries cold_start in
  respond env url 0 = Responds 500 "Internal Server Error" None
  ∧ respond env url 1 = Responds 500 "Internal Server Error" None
  ∧ respond env url 2 = Responds 500 "Internal Server Error" None
  ∧ payload_of (respond env url 3) = Some (JNum 7)
  ∧ call.1 = Throw (HttpError "HTTP 500: Internal Server Error")
  ∧ call.1 ≠ Ok (JNum 7)
  ∧ network_calls (trace call.2) = 3%nat.
Proof. vm_compute. repeat split; discriminate. Qed.

(** ** Fresh entries are served from the cache *)

(** The scenario of the spec from a cold cache: when the first request of
    the first call succeeds, the entry it stores serves the second call
    while it is fresh, and exactly one HTTP request is made. *)
Lemma back_to_back_after_first_success env call w v t2 :
  no_fresh_entry w (cache_key env call) →
  let url := url_of (cache_key env call) in
  payload_of (respond env url (requests_to url (trace w))) = Some v →
  let first := perform env call w in
  (∀ c, cache first.2 !! cache_key env call = Some c →
        t2 - timestamp c < DataService.cacheTimeout) →
  let second := perform env call (at_time t2 first.2) in
  first.1 = Ok v ∧ second.1 = Ok v
  ∧ network_calls (trace second.2) = (network_calls (trace w) + 1)%nat.
Proof.
  intros Hmiss url Hv first. subst first. rewrite perform_fetchWithRetry.
  rewrite (fetchWithRetry_miss _ _ _ _ Hmiss).
  change DataService.default_retries with 3%nat.
  rewrite (loop_success env _ _ _ _ _ _ _ Hv). cbn [fst snd].
  intros Hwin.
  set (e := mkEntry v (now (answered env (cache_key env call) w))).
  specialize (Hwin e). cbn [cache] in Hwin.
  rewrite lookup_insert_eq in Hwin. specialize (Hwin eq_refl).
  erewrite (fetchWithRetry_fresh env _ _ _ e).
  - cbn [fst snd at_time trace]. split; [done|]. split; [done|].
    rewrite network_calls_answered. lia.
  - cbn [at_time cache]. by rewrite lookup_insert_eq.
  - done.
Qed.

(** C3, as the code has it: when the cache holds an entry for the key
    of a call that is younger than the cache timeout, the call returns
    the cached value and leaves the world as it was: no request, nothing
    logged, cache untouched.  Of two calls with the same parameters made
    one after the other, [getPredictions(50)] among them, the second
    started while the entry the first has read or stored is fresh, both
    resolve to the same value and at most one HTTP request is made
    between them, provided the first call is served from a fresh entry or
    by its first request. *)
Theorem fresh_entry_served_from_cache env call w :
  let key := cache_key env call in
  let url := url_of key in
  (∀ c, cache w !! key = Some c →
        now w - timestamp c < DataService.cacheTimeout →
        perform env call w = (Ok (data c), w))
  ∧ (∀ v t2,
       (∃ c, cache w !! key = Some c
             ∧ now w - timestamp c < DataService.cacheTimeout ∧ data c = v)
       ∨ (no_fresh_entry w key
          ∧ payload_of (respond env url (requests_to url (trace w))) = Some v) →
       let first := perform env call w in
       (∀ c, cache first.2 !! key = Some c →
             t2 - timestamp c < DataService.cacheTimeout) →
       let second := perform env call (at_time t2 first.2) in
       first.1 = Ok v ∧ second.1 = Ok v
       ∧ (network_calls (trace second.2) ≤ network_calls (trace w) + 1)%nat).
Proof.
  intros key url. split.
  - intros c Hc Hfresh. rewrite perform_fetchWithRetry.
    by apply fetchWithRetry_fresh.
  - intros v t2 [(c & Hc & Hfresh & <-)|[Hmiss Hv]] first Hwin second.
    + subst second first. revert Hwin. rewrite !perform_fetchWithRetry.
      fold key. rewrite (fetchWithRetry_fresh env key _ w c Hc Hfresh).
      cbn [fst snd]. intros Hwin.
      rewrite (fetchWithRetry_fresh env key _ (at_time t2 w) c Hc (Hwin c Hc)).
      cbn [fst snd at_time trace]. split; [done|]. split; [done|]. lia.
    + destruct (back_to_back_after_first_success env call w v t2 Hmiss Hv Hwin)
        as (H1 & H2 & Hn).
      subst first second. rewrite H1, H2, Hn. done.
Qed.

Lemma fresh_entry_served_from_cache_witness :
  let env := flaky_backend 0 (JArr [JNum 31]) nobody in
  let first := DataService.getPredictions env 50 None cold_start in
  let second := DataService.getPredictions env 50 None (at_time 1000 first.2) in
  first.1 = Ok (JArr [JNum 31]) ∧ second.1 = Ok (JArr [JNum 31])
  ∧ (network_calls (trace second.2) ≤ network_calls (trace cold_start) + 1)%nat.
Proof.
  intros env.
  destruct (fresh_entry_served_from_cache env (GetPredictions 50 None) cold_start)
    as [_ Hcold].
  apply (Hcold (JArr [JNum 31]) 1000).
  - right. split; [exact I|reflexivity].
  - intros c Hc. vm_compute in Hc. injection Hc as <-. reflexivity.
Defined.

(** C3 as stated fails from a cold cache: when the first request is
    answered with HTTP 500 and the second with the data, two calls made
    one after the other well within the cache timeout resolve to equal
    values, and two HTTP requests have been made. *)
Lemma back_to_back_with_one_failure :
  let env := flaky_backend 1 (JArr [JNum 31]) nobody in
  let first := DataService.getPredictions env 50 None cold_start in
  let second := DataService.getPredictions env 50 None first.2 in
  cache cold_start !! cache_key env (GetPredictions 50 None) = None
  ∧ now first.2 - now cold_start < DataService.cacheTimeout
  ∧ first.1 = Ok (JArr [JNum 31]) ∧ second.1 = first.1
  ∧ network_calls (trace second.2) = 2%nat
  ∧ ¬ (network_calls (trace second.2) ≤ network_calls (trace cold_start) + 1)%nat.
Proof. vm_compute. repeat split; try done. intros H. inversion H as [|? H']. inversion H'. Qed.

(** ** Stale entries and errors *)

(** C4: let every request the call can make fail.  If the cache held an
    entry for the key when the call started, whatever its age, the call
    returns that entry's value and does not raise; if it held none, the
    call raises the classified error of the last attempt.  And a call
    raises if and only if the cache holds no entry for its key and all
    three attempts fail. *)
Theorem stale_entry_or_error env call w :
  let key := cache_key env call in
  let url := url_of key in
  let n := requests_to url (trace w) in
  (all_fail env url n 3 →
     (∀ c, cache w !! key = Some c → (perform env call w).1 = Ok (data c))
     ∧ (cache w !! key = None →
        (perform env call w).1 = Throw (error_of (respond env url (n + 2)))))
  ∧ ((∃ e, (perform env call w).1 = Throw e)
     ↔ cache w !! key = None ∧ all_fail env url n 3).
Proof.
  intros key url n. rewrite perform_fetchWithRetry. fold key.
  assert (Hex : all_fail env url n 3 → no_fresh_entry w key →
    (DataService.fetchWithRetry env key DataService.default_retries w).1
    = match cache w !! key with
      | Some c => Ok (data c)
      | None => Throw (error_of (respond env url (n + 2)))
      end).
  { intros Hfail Hmiss.
    destruct (retry_budget env key DataService.default_retries w Hmiss)
      as [_ Hall].
    apply Hall; [|exact Hfail]. unfold DataService.default_retries. lia. }
  assert (Hfresh : ∀ c, cache w !! key = Some c →
    ¬ no_fresh_entry w key →
    DataService.fetchWithRetry env key DataService.default_retries w
    = (Ok (data c), w)).
  { intros c Hc Hnot. apply fetchWithRetry_fresh; [done|].
    unfold no_fresh_entry in Hnot. rewrite Hc in Hnot. lia. }
  assert (Hdec : no_fresh_entry w key ∨ ¬ no_fresh_entry w key).
  { unfold no_fresh_entry. destruct (cache w !! key) as [c|]; [lia|by left]. }
  split.
  - intros Hfail. split.
    + intros c Hc. destruct Hdec as [Hmiss|Hhit].
      * by rewrite Hex, Hc.
      * by rewrite (Hfresh c).
    + intros Hnone. rewrite Hex, Hnone; [done..|].
      unfold no_fresh_entry. by rewrite Hnone.
  - split.
    + intros [e He]. destruct (cache w !! key) as [c|] eqn:Hc.
      * exfalso. destruct Hdec as [Hmiss|Hhit].
        -- destruct (retry_budget env key DataService.default_retries w Hmiss)
             as [Hok _].
           destruct (first_success env url n 3) as [Hfail|(k & v & Hk & Hfail & Hv)].
           ++ rewrite (Hex Hfail Hmiss) in He. congruence.
           ++ destruct (Hok k v Hk Hfail Hv) as [Hr _]. congruence.
        -- rewrite (Hfresh c eq_refl Hhit) in He. discriminate.
      * split; [done|].
        assert (Hmiss : no_fresh_entry w key).
        { unfold no_fresh_entry. by rewrite Hc. }
        destruct (retry_budget env key DataService.default_retries w Hmiss)
          as [Hok _].
        destruct (first_success env url n 3) as [Hfail|(k & v & Hk & Hfail & Hv)];
          [done|].
        destruct (Hok k v Hk Hfail Hv) as [Hr _]. congruence.
    + intros [Hnone Hfail]. eexists. rewrite Hex, Hnone; [done..|].
      unfold no_fresh_entry. by rewrite Hnone.
Qed.

Lemma stale_entry_or_error_witness :
  let env := flaky_backend 3 JNull nobody in
  (DataService.getCities env stale_page).1 = Ok (JArr [JStr "nyc"])
  ∧ (DataService.getCities env cold_start).1
    = Throw (HttpError "HTTP 500: Internal Server Error").
Proof.
  intros env.
  assert (Hdown : ∀ w, trace w = [] → all_fail env (url_of "/cities")
                    (requests_to (url_of "/cities") (trace w)) 3).
  { intros w -> j Hj. destruct j as [|[|[|j]]]; (reflexivity || lia). }
  split.
  - destruct (stale_entry_or_error env GetCities stale_page) as [H _].
    destruct (H (Hdown stale_page eq_refl)) as [Hstale _].
    apply (Hstale (mkEntry (JArr [JStr "nyc"]) 0)). reflexivity.
  - destruct (stale_entry_or_error env GetCities cold_start) as [H _].
    destruct (H (Hdown cold_start eq_refl)) as [_ Hnone].
    apply Hnone. reflexivity.
Defined.

(** ** The backoff schedule *)

(** C8: a call that goes to the network schedules one delay after each
    failed attempt that is not the last, and the delay after failed
    attempt [i] (counted from 0) is [2^i * 1000] milliseconds, whatever
    the configured retry count. *)
Theorem backoff_schedule env endpoint retries w :
  no_fresh_entry w endpoint →
  let url := url_of endpoint in
  let n := requests_to url (trace w) in
  let after := (DataService.fetchWithRetry env endpoint retries w).2 in
  delays (trace after)
  = delays (trace w) ++ backoff 0 (leading_failures env url n (retries - 1))
  ∧ ∀ i, (i + 1 < retries)%nat → all_fail env url n (i + 1) →
         delays (trace after) !! (length (delays (trace w)) + i)%nat
         = Some (2 ^ Z.of_nat i * 1000).
Proof.
  intros Hmiss url n after. subst after.
  rewrite (fetchWithRetry_miss _ _ _ _ Hmiss).
  rewrite loop_delays by lia. split; [done|]. intros i Hi Hfail.
  rewrite lookup_app_r by lia.
  replace (length (delays (trace w)) + i - length (delays (trace w)))%nat
    with i by lia.
  rewrite lookup_backoff; [done|].
  pose proof (leading_failures_all_fail env url (retries - 1) n (i + 1) Hfail).
  subst url n. lia.
Qed.

Lemma backoff_schedule_witness :
  delays (trace (DataService.fetchWithRetry (flaky_backend 4 JNull nobody)
                   "/health" 5 cold_start).2) !! 3%nat
  = Some 8000.
Proof.
  destruct (backoff_schedule (flaky_backend 4 JNull nobody) "/health" 5
              cold_start I) as [_ H].
  apply (H 3%nat); [lia|].
  intros j Hj. destruct j as [|[|[|[|j]]]]; (reflexivity || lia).
Defined.

(** ** Loading the whole dashboard *)

(** C5: [loadAllData] never raises, whatever the six endpoint calls do:
    it returns a record in which each field is the value of its call when
    the call succeeded and its fallback otherwise, that is, an empty
    array for cities, predictions, historical and realtime, the metrics
    object whose counters are all 0, and [{status: 'offline'}] for
    health.  Each call is the call as started when [loadAllData] is
    called, and the fallback of the metrics is stamped with the time at
    which the last of the six has settled. *)
Theorem loadAllData_never_raises env w :
  let c := DataService.getCities env w in
  let p := DataService.getPredictions env 100 None w in
  let m := DataService.getMetrics env w in
  let h := DataService.getHistoricalData env 24 w in
  let r := DataService.getRealtimeTraffic env w in
  let he := DataService.getHealthStatus env w in
  let after := (allSettled env [DataService.getCities env;
                                DataService.getPredictions env 100 None;
                                DataService.getMetrics env;
                                DataService.getHistoricalData env 24;
                                DataService.getRealtimeTraffic env;
                                DataService.getHealthStatus env] w).2 in
  DataService.loadAllData env w
  = (Ok (DataService.mkDashboard
           (field c (JArr []))
           (field p (JArr []))
           (field m (JObj [("totalPredictions", JNum 0); ("accuracy", JNum 0);
                           ("avgResponseTime", JNum 0); ("activeSegments", JNum 0);
                           ("citiesMonitored", JNum 0);
                           ("lastUpdated", JStr (toISOString env (now after)))]))
           (field h (JArr []))
           (field r (JArr []))
           (field he (JObj [("status", JStr "offline")]))),
     after)
  ∧ now after
    = Z.max (now c.2) (Z.max (now p.2) (Z.max (now m.2) (Z.max (now h.2)
        (Z.max (now r.2) (Z.max (now he.2) (now w)))))).
Proof.
  intros c p m h r he after. subst c p m h r he after.
  unfold DataService.loadAllData, try_catch, field.
  unfold mbind, M_bind, bind, allSettled.
  cbn [fmap list_fmap foldr fst snd now]. unfold follow.
  destruct (DataService.getCities env w) as [[c|ec] w1];
  destruct (DataService.getPredictions env 100 None w) as [[p|ep] w2];
  destruct (DataService.getMetrics env w) as [[m|em] w3];
  destruct (DataService.getHistoricalData env 24 w) as [[h|eh] w4];
  destruct (DataService.getRealtimeTraffic env w) as [[r|er] w5];
  destruct (DataService.getHealthStatus env w) as [[he|ehe] w6];
  split; reflexivity.
Qed.

(** With the backend down and nothing cached, every field is its
    fallback. *)
Example loadAllData_all_endpoints_down :
  (DataService.loadAllData (flaky_backend 100 JNull nobody) cold_start).1
  = Ok (DataService.mkDashboard
          (JArr []) (JArr [])
          (JObj [("totalPredictions", JNum 0); ("accuracy", JNum 0);
                 ("avgResponseTime", JNum 0); ("activeSegments", JNum 0);
                 ("citiesMonitored", JNum 0);
                 ("lastUpdated", JStr "2024-01-01T00:00:00.000Z")])
          (JArr []) (JArr [])
          (JObj [("status", JStr "offline")])).
Proof. vm_compute. reflexivity. Qed.

(** ** The hub stays consistent *)

Section Hub.

Import RealTimeManager.

Lemma set_add_elem cb s : cb ∈ set_add cb s.
Proof. unfold set_add. case_decide; [done|]. set_solver. Qed.

Lemma set_add_nonempty cb s : set_add cb s ≠ [].
Proof.
  pose proof (set_add_elem cb s) as H. intros Heq. rewrite Heq in H.
  by apply elem_of_nil in H.
Qed.

Lemma set_add_nodup cb s : NoDup s → NoDup (set_add cb s).
Proof.
  intros Hs. unfold set_add. case_decide; [done|].
  apply NoDup_app. split; [done|]. split; [|apply NoDup_singleton].
  intros x Hx ->%list_elem_of_singleton. done.
Qed.

Lemma set_add_present cb s : cb ∈ s → set_add cb s = s.
Proof. intros. unfold set_add. by case_decide. Qed.

Lemma set_delete_absent cb s : cb ∉ s → set_delete cb s = s.
Proof.
  intros Hcb. unfold set_delete. induction s as [|x s IH]; [done|].
  rewrite filter_cons. apply not_elem_of_cons in Hcb as [Hx Hs].
  case_decide; [|done]. by rewrite IH.
Qed.

Lemma set_delete_gone cb s : cb ∉ set_delete cb s.
Proof. unfold set_delete. rewrite list_elem_of_filter. tauto. Qed.

Lemma consistent_empty : consistent empty_hub.
Proof.
  split; cbn; intros *; rewrite ?lookup_empty; try done.
  all: split; intros [? ?]; done.
Qed.

(** What [stopAll] leaves of the runtime's timers: those no handle of
    the registry refers to. *)
Lemma stopAll_timers (live : gmap positive Timer) (m : gmap string positive) id t :
  map_fold (fun _ interval live => delete interval live) live m !! id = Some t →
  live !! id = Some t ∧ ∀ key, m !! key ≠ Some id.
Proof.
  revert id t.
  apply (map_fold_weak_ind
           (fun r m => ∀ id t, r !! id = Some t →
                               live !! id = Some t ∧ ∀ key, m !! key ≠ Some id)).
  - intros id t Hid. split; [done|]. intros key. by rewrite lookup_empty.
  - intros key interval m' r Hnone IH id t Hid.
    apply lookup_delete_Some in Hid as [Hne Hid].
    destruct (IH id t Hid) as [Hlive Hno]. split; [done|].
    intros key'. destruct (decide (key = key')) as [<-|Hk].
    + rewrite lookup_insert_eq. congruence.
    + rewrite lookup_insert_ne by done. apply Hno.
Qed.

Lemma consistent_stopAll h : consistent h → consistent (stopAll h).
Proof.
  intros Hh. split; cbn; intros *; rewrite ?lookup_empty; try done.
  all: intros [Hlive Hno]%stopAll_timers.
  all: by apply (timers_owned h Hh), Hno in Hlive.
Qed.

Lemma consistent_subscribe key cb ms h :
  consistent h → consistent (subscribe key cb ms h).2.
Proof.
  intros Hh. unfold subscribe. cbn [snd].
  assert (Hnodup : NoDup (set_add cb (default [] (subscribers h !! key)))).
  { apply set_add_nodup. destruct (subscribers h !! key) eqn:E; cbn.
    - by eapply sets_nodup.
    - constructor. }
  assert (Hsets : ∀ k subs,
    <[key := set_add cb (default [] (subscribers h !! key))]> (subscribers h) !! k
    = Some subs → subs ≠ [] ∧ NoDup subs).
  { intros k subs. destruct (decide (key = k)) as [<-|Hk].
    - rewrite lookup_insert_eq. intros [= <-].
      split; [apply set_add_nonempty|done].
    - rewrite lookup_insert_ne by done. intros Hs.
      split; [by eapply sets_nonempty|by eapply sets_nodup]. }
  destruct (intervals h !! key) as [id|] eqn:Hi;
    split; cbn [intervals subscribers timers next_handle];
    try (intros k subs Hs; by apply (Hsets k subs Hs)).
  - intros k. destruct (decide (key = k)) as [<-|Hk].
    + rewrite lookup_insert_eq, Hi. split; eauto.
    + rewrite lookup_insert_ne by done. apply (same_keys h Hh).
  - apply (handles_live h Hh).
  - apply (timers_owned h Hh).
  - apply (handles_fresh h Hh).
  - intros k. destruct (decide (key = k)) as [<-|Hk].
    + rewrite !lookup_insert_eq. split; eauto.
    + rewrite !lookup_insert_ne by done. apply (same_keys h Hh).
  - intros k id. destruct (decide (key = k)) as [<-|Hk].
    + rewrite lookup_insert_eq. intros [= <-]. exists ms.
      by rewrite lookup_insert_eq.
    + rewrite lookup_insert_ne by done. intros Hid.
      destruct (handles_live h Hh k id Hid) as [ms' Hms']. exists ms'.
      rewrite lookup_insert_ne; [done|]. intros <-.
      pose proof (handles_fresh h Hh _ _ Hms'). lia.
  - intros id t. destruct (decide (next_handle h = id)) as [<-|Hid].
    + rewrite lookup_insert_eq. intros [= <-]. cbn.
      by rewrite lookup_insert_eq.
    + rewrite lookup_insert_ne by done. intros Ht.
      pose proof (timers_owned h Hh id t Ht) as Hown.
      rewrite lookup_insert_ne; [done|]. intros Heq.
      rewrite <- Heq, Hi in Hown. done.
  - intros id t. destruct (decide (next_handle h = id)) as [<-|Hid].
    + intros _. lia.
    + rewrite lookup_insert_ne by done. intros Ht.
      pose proof (handles_fresh h Hh id t Ht). lia.
Qed.

Lemma consistent_unsubscribe key cb h :
  consistent h → consistent (unsubscribe key cb h).
Proof.
  intros Hh. unfold unsubscribe.
  destruct (subscribers h !! key) as [subs|] eqn:Hs; [|done].
  destruct (Nat.eqb_spec (length (set_delete cb subs)) 0) as [Hlen|Hlen].
  - destruct (intervals h !! key) as [id|] eqn:Hi.
    2: { exfalso. assert (is_Some (intervals h !! key)) as [? Hsome].
         { apply (same_keys h Hh). eauto. }
         congruence. }
    destruct (handles_live h Hh key id Hi) as [ms Hms].
    split; cbn [intervals subscribers timers next_handle].
    + intros k. rewrite !lookup_delete_is_Some.
      pose proof (same_keys h Hh k). tauto.
    + intros k subs' [_ Hk]%lookup_delete_Some. by eapply sets_nonempty.
    + intros k subs' [_ Hk]%lookup_delete_Some. by eapply sets_nodup.
    + intros k id' [Hk Hid']%lookup_delete_Some.
      destruct (handles_live h Hh k id' Hid') as [ms' Hms']. exists ms'.
      rewrite lookup_delete_ne; [done|]. intros <-. congruence.
    + intros id' t [Hne Ht]%lookup_delete_Some.
      pose proof (timers_owned h Hh id' t Ht) as Hown.
      rewrite lookup_delete_ne; [done|]. intros Heq.
      rewrite <- Heq, Hi in Hown. congruence.
    + intros id' t [_ Ht]%lookup_delete_Some. by eapply handles_fresh.
  - split; cbn [intervals subscribers timers next_handle].
    + intros k. destruct (decide (key = k)) as [<-|Hk].
      * rewrite lookup_insert_eq. split; [eauto|]. intros _.
        apply (same_keys h Hh). eauto.
      * rewrite lookup_insert_ne by done. apply (same_keys h Hh).
    + intros k subs'. destruct (decide (key = k)) as [<-|Hk].
      * rewrite lookup_insert_eq. intros [= <-] Hnil.
        by rewrite Hnil in Hlen.
      * rewrite lookup_insert_ne by done. apply (sets_nonempty h Hh).
    + intros k subs'. destruct (decide (key = k)) as [<-|Hk].
      * rewrite lookup_insert_eq. intros [= <-].
        apply NoDup_filter. by eapply sets_nodup.
      * rewrite lookup_insert_ne by done. apply (sets_nodup h Hh).
    + apply (handles_live h Hh).
    + apply (timers_owned h Hh).
    + apply (handles_fresh h Hh).
Qed.

Lemma consistent_step env op st :
  consistent st.1 → consistent (step env op st).1.
Proof.
  intros Hst. destruct op as [key cb ms|key cb| |id]; cbn [step fst].
  - by apply consistent_subscribe.
  - by apply consistent_unsubscribe.
  - by apply consistent_stopAll.
  - by destruct (timers st.1 !! id).
Qed.

Lemma consistent_run env ops : ∀ st,
  consistent st.1 → consistent (run env ops st).1.
Proof.
  unfold run. induction ops as [|op ops IH]; intros st Hst; [done|].
  cbn [foldl]. by apply IH, consistent_step.
Qed.

Lemma reachable_consistent h : reachable h → consistent h.
Proof.
  intros (env & ops & w & <-). apply consistent_run, consistent_empty.
Qed.

Lemma timers_of_inactive key h :
  consistent h → intervals h !! key = None → timers_of key h = ∅.
Proof.
  intros Hh Hi. apply map_empty. intros id. apply map_lookup_filter_None_2.
  destruct (timers h !! id) as [t|] eqn:Ht; [right|by left].
  intros t' [= <-] Hkey. cbn in Hkey.
  pose proof (timers_owned h Hh id t Ht) as Hown.
  rewrite Hkey, Hi in Hown. done.
Qed.

Lemma timers_of_active key id t h :
  consistent h → intervals h !! key = Some id → timers h !! id = Some t →
  timers_of key h = {[ id := t ]}.
Proof.
  intros Hh Hi Ht. destruct (handles_live h Hh key id Hi) as [ms Hms].
  assert (t = mkTimer key ms) as -> by congruence.
  apply map_eq. intros id'. destruct (decide (id = id')) as [<-|Hne].
  - rewrite lookup_singleton_eq. by apply map_lookup_filter_Some_2.
  - rewrite lookup_singleton_ne by done. apply map_lookup_filter_None_2.
    right. intros t' Ht' Hkey. cbn in Hkey.
    pose proof (timers_owned h Hh id' t' Ht') as Hown.
    rewrite Hkey, Hi in Hown. congruence.
Qed.

Lemma subscribe_inactive key cb ms h :
  intervals h !! key = None →
  intervals (subscribe key cb ms h).2 = <[key := next_handle h]> (intervals h)
  ∧ timers (subscribe key cb ms h).2
    = <[next_handle h := mkTimer key ms]> (timers h).
Proof. intros Hi. unfold subscribe. cbn [snd]. by rewrite Hi. Qed.

Lemma subscribe_active key cb ms h id :
  intervals h !! key = Some id →
  intervals (subscribe key cb ms h).2 = intervals h
  ∧ timers (subscribe key cb ms h).2 = timers h
  ∧ next_handle (subscribe key cb ms h).2 = next_handle h.
Proof. intros Hi. unfold subscribe. cbn [snd]. by rewrite Hi. Qed.

Lemma subscribe_registers key cb ms h :
  ∃ subs, subscribers (subscribe key cb ms h).2 !! key = Some subs ∧ cb ∈ subs.
Proof.
  eexists. split; [|apply set_add_elem].
  unfold subscribe. cbn [snd].
  destruct (intervals h !! key); cbn [subscribers]; by rewrite lookup_insert_eq.
Qed.

Lemma subscribe_all_active key consumers : ∀ h id,
  intervals h !! key = Some id →
  intervals (subscribe_all key consumers h) = intervals h
  ∧ timers (subscribe_all key consumers h) = timers h.
Proof.
  unfold subscribe_all.
  induction consumers as [|[cb ms] consumers IH]; intros h id Hi; [done|].
  cbn [foldl fst snd].
  destruct (subscribe_active key cb ms h id Hi) as (Hint & Htim & _).
  destruct (IH (subscribe key cb ms h).2 id) as [-> ->]; [|done].
  by rewrite Hint.
Qed.

Lemma unsubscribe_last key cb subs id h :
  subscribers h !! key = Some subs → set_delete cb subs = [] →
  intervals h !! key = Some id →
  unsubscribe key cb h
  = mkHub (delete key (intervals h)) (delete key (subscribers h))
          (delete id (timers h)) (next_handle h).
Proof. intros Hs Hd Hi. unfold unsubscribe. by rewrite Hs, Hd, Hi. Qed.

Lemma unsubscribe_absent key cb h :
  consistent h →
  (∀ subs, subscribers h !! key = Some subs → cb ∉ subs) →
  unsubscribe key cb h = h.
Proof.
  intros Hh Habs. unfold unsubscribe.
  destruct (subscribers h !! key) as [subs|] eqn:Hs; [|done].
  rewrite (set_delete_absent cb subs) by auto.
  destruct (Nat.eqb_spec (length subs) 0) as [Hlen|Hlen].
  - apply nil_length_inv in Hlen. by apply (sets_nonempty h Hh) in Hs.
  - rewrite insert_id by done. by destruct h.
Qed.

Lemma unsubscribe_removes key cb h subs :
  subscribers (unsubscribe key cb h) !! key = Some subs → cb ∉ subs.
Proof.
  unfold unsubscribe.
  destruct (subscribers h !! key) as [s|] eqn:Hs; [|congruence].
  destruct (length (set_delete cb s) =? 0)%nat.
  - destruct (intervals h !! key); cbn [subscribers];
      by rewrite lookup_delete_eq.
  - cbn [subscribers]. rewrite lookup_insert_eq. intros [= <-].
    apply set_delete_gone.
Qed.

Lemma set_delete_only cb : set_delete cb [cb] = [].
Proof. unfold set_delete. rewrite filter_cons. by case_decide. Qed.

Lemma tick_unrecognized env hub key w :
  recognized key = false → tick env hub key w = (Ok tt, w).
Proof.
  unfold recognized, tick, poll, try_catch. intros Hkey.
  destruct (String.eqb key "predictions"); [done|].
  destruct (String.eqb key "metrics"); [done|].
  destruct (String.eqb key "realtime"); [done|].
  by destruct (String.eqb key "health").
Qed.

(** An active timer survives every operation that spares its key. *)
Lemma timer_survives_step env key id t op st :
  consistent st.1 → spares key op →
  intervals st.1 !! key = Some id → timers st.1 !! id = Some t →
  intervals (step env op st).1 !! key = Some id
  ∧ timers (step env op st).1 !! id = Some t.
Proof.
  intros Hst Hop Hi Ht.
  destruct op as [k cb ms|k cb| |fired]; cbn [step fst]; [| |done|].
  - destruct (intervals st.1 !! k) as [id'|] eqn:Hk.
    + destruct (subscribe_active k cb ms st.1 id' Hk) as (-> & -> & _). done.
    + destruct (subscribe_inactive k cb ms st.1 Hk) as (-> & ->).
      rewrite !lookup_insert_ne; [done| |congruence].
      pose proof (handles_fresh _ Hst id t Ht). lia.
  - cbn in Hop. unfold unsubscribe.
    destruct (subscribers st.1 !! k) as [subs|]; [|done].
    destruct (length (set_delete cb subs) =? 0)%nat; [|done].
    destruct (intervals st.1 !! k) as [id'|] eqn:Hk; [|done].
    cbn [intervals timers]. rewrite !lookup_delete_ne; [done| |done].
    intros <-. destruct (handles_live _ Hst k id' Hk) as [ms' Hms'].
    destruct (handles_live _ Hst key id' Hi) as [ms Hms]. congruence.
  - by destruct (timers st.1 !! fired).
Qed.

Lemma timer_survives env key id t ops : ∀ st,
  consistent st.1 → Forall (spares key) ops →
  intervals st.1 !! key = Some id → timers st.1 !! id = Some t →
  intervals (run env ops st).1 !! key = Some id
  ∧ timers (run env ops st).1 !! id = Some t.
Proof.
  unfold run. induction ops as [|op ops IH]; intros st Hst Hops Hi Ht; [done|].
  apply Forall_cons in Hops as [Hop Hops]. cbn [foldl].
  destruct (timer_survives_step env key id t op st) as [Hi' Ht']; [done..|].
  apply IH; [by apply consistent_step|done..].
Qed.

(** [forEach] calls the subscribers up to the first that throws. *)
Lemma forEach_trace env payload : ∀ subs w,
  ∃ r, forEach env subs payload w
       = (r, mkWorld (cache w) (now w)
                     (trace w ++ ((fun cb => EInvoke cb payload)
                                  <$> up_to_first_throw env subs payload))).
Proof.
  induction subs as [|cb subs IH]; intros w.
  - exists (Ok tt). cbn. rewrite app_nil_r. by destruct w.
  - cbn [forEach up_to_first_throw]. unfold invoke at 1.
    unfold mbind, M_bind, bind, emit. cbn [fst snd].
    destruct (cb_throws env cb payload).
    + by exists (Throw (CallbackError cb)).
    + cbn. destruct (IH (mkWorld (cache w) (now w)
                                 (trace w ++ [EInvoke cb payload]))) as [r ->].
      exists r. cbn [cache now trace]. by rewrite <- app_assoc.
Qed.

Lemma forEach_spec env payload : ∀ subs w,
  forEach env subs payload w
  = (match first_thrower env subs payload with
     | Some cb => Throw (CallbackError cb)
     | None => Ok tt
     end,
     mkWorld (cache w) (now w)
             (trace w ++ ((fun cb => EInvoke cb payload)
                          <$> up_to_first_throw env subs payload))).
Proof.
  induction subs as [|cb subs IH]; intros w.
  - cbn. rewrite app_nil_r. by destruct w.
  - cbn [forEach up_to_first_throw first_thrower]. unfold invoke at 1.
    unfold mbind, M_bind, bind, emit. cbn [fst snd].
    destruct (cb_throws env cb payload); [done|].
    cbn. rewrite IH. cbn [cache now trace]. by rewrite <- app_assoc.
Qed.

Lemma first_thrower_none env payload subs :
  (∀ cb, cb ∈ subs → cb_throws env cb payload = false) →
  first_thrower env subs payload = None.
Proof.
  induction subs as [|cb subs IH]; intros Hok; [done|]. cbn.
  rewrite Hok by set_solver. apply IH. intros x Hx. apply Hok. set_solver.
Qed.

Lemma first_thrower_stops env payload pre cb post :
  (∀ x, x ∈ pre → cb_throws env x payload = false) →
  cb_throws env cb payload = true →
  first_thrower env (pre ++ cb :: post) payload = Some cb.
Proof.
  intros Hpre Hcb. induction pre as [|x pre IH]; cbn; [by rewrite Hcb|].
  rewrite Hpre by set_solver. apply IH. intros y Hy. apply Hpre. set_solver.
Qed.

Lemma invocations_invoke payload (subs : list Callback) :
  invocations ((fun cb => EInvoke cb payload) <$> subs)
  = (fun cb => (cb, payload)) <$> subs.
Proof. induction subs as [|cb subs IH]; [done|]. cbn. by f_equal. Qed.

Lemma up_to_first_throw_none env payload subs :
  (∀ cb, cb ∈ subs → cb_throws env cb payload = false) →
  up_to_first_throw env subs payload = subs.
Proof.
  induction subs as [|cb subs IH]; intros Hok; [done|]. cbn.
  rewrite Hok by set_solver. f_equal. apply IH. intros x Hx.
  apply Hok. set_solver.
Qed.

Lemma up_to_first_throw_stops env payload pre cb post :
  (∀ x, x ∈ pre → cb_throws env x payload = false) →
  cb_throws env cb payload = true →
  up_to_first_throw env (pre ++ cb :: post) payload = pre ++ [cb].
Proof.
  intros Hpre Hcb. induction pre as [|x pre IH]; cbn; [by rewrite Hcb|].
  rewrite Hpre by set_solver. f_equal. apply IH. intros y Hy.
  apply Hpre. set_solver.
Qed.

End Hub.

(** ** One timer per key *)

(** C6: let a key be inactive in a hub the page can be in.  After one or
    more consumers have subscribed to it, whatever intervals they asked
    for, exactly one timer of the runtime polls the key, the registry
    holds its handle, and its interval is the one the first subscriber
    gave. *)
Theorem one_timer_per_key key cb ms rest h :
  reachable h →
  RealTimeManager.intervals h !! key = None →
  let h' := subscribe_all key ((cb, ms) :: rest) h in
  ∃ id, RealTimeManager.intervals h' !! key = Some id
        ∧ RealTimeManager.timers_of key h' = {[ id := RealTimeManager.mkTimer key ms ]}
        ∧ size (RealTimeManager.timers_of key h') = 1%nat.
Proof.
  intros Hh%reachable_consistent Hi h'. subst h'.
  change (subscribe_all key ((cb, ms) :: rest) h)
    with (subscribe_all key rest (RealTimeManager.subscribe key cb ms h).2).
  set (h1 := (RealTimeManager.subscribe key cb ms h).2).
  assert (Hh1 : consistent h1) by by apply consistent_subscribe.
  destruct (subscribe_inactive key cb ms h Hi) as [Hint Htim]. fold h1 in Hint, Htim.
  assert (Hi1 : RealTimeManager.intervals h1 !! key
                = Some (RealTimeManager.next_handle h)).
  { by rewrite Hint, lookup_insert_eq. }
  assert (Ht1 : RealTimeManager.timers h1 !! RealTimeManager.next_handle h
                = Some (RealTimeManager.mkTimer key ms)).
  { by rewrite Htim, lookup_insert_eq. }
  destruct (subscribe_all_active key rest h1 _ Hi1) as [Hint' Htim'].
  exists (RealTimeManager.next_handle h).
  assert (Hof : RealTimeManager.timers_of key (subscribe_all key rest h1)
                = {[ RealTimeManager.next_handle h := RealTimeManager.mkTimer key ms ]}).
  { unfold RealTimeManager.timers_of. rewrite Htim'.
    by apply (timers_of_active key _ _ h1). }
  rewrite Hint', Hof, map_size_singleton. done.
Qed.

Lemma one_timer_per_key_witness :
  let h' := subscribe_all "metrics" [(1%nat, 5000); (2%nat, 15000)]
                          RealTimeManager.empty_hub in
  ∃ id, RealTimeManager.intervals h' !! "metrics" = Some id
        ∧ RealTimeManager.timers_of "metrics" h'
          = {[ id := RealTimeManager.mkTimer "metrics" 5000 ]}
        ∧ size (RealTimeManager.timers_of "metrics" h') = 1%nat.
Proof.
  apply (one_timer_per_key "metrics" 1%nat 5000 [(2%nat, 15000)]
           RealTimeManager.empty_hub).
  - exists (flaky_backend 0 JNull nobody), [], cold_start. reflexivity.
  - reflexivity.
Defined.

(** ** Timers and subscriber sets go together *)

(** C7: after every sequence of subscribe, unsubscribe and stopAll
    operations (and timer firings) from the empty hub, hence after each
    operation of the sequence, a key has an entry in the timer registry
    if and only if its subscriber set is non-empty.  A subscribe leaves
    its key with the callback in the set and a live timer under the
    registered handle.  Unsubscribing the last callback of a key clears
    its timer and removes the key from both registries, and the next
    subscribe for the key starts a timer under a new handle, with the
    interval it asks for, which is then the only timer of the key. *)
Theorem timer_iff_subscribers env ops w :
  let h := (RealTimeManager.run env ops (RealTimeManager.empty_hub, w)).1 in
  (∀ key, is_Some (RealTimeManager.intervals h !! key)
          ↔ ∃ subs, RealTimeManager.subscribers h !! key = Some subs ∧ subs ≠ [])
  ∧ (∀ key cb ms,
       let h1 := (RealTimeManager.subscribe key cb ms h).2 in
       ∃ id subs t,
         RealTimeManager.intervals h1 !! key = Some id
         ∧ RealTimeManager.timers h1 !! id = Some t
         ∧ RealTimeManager.timer_key t = key
         ∧ RealTimeManager.subscribers h1 !! key = Some subs
         ∧ cb ∈ subs)
  ∧ (∀ key cb id,
       RealTimeManager.subscribers h !! key = Some [cb] →
       RealTimeManager.intervals h !! key = Some id →
       let h1 := RealTimeManager.unsubscribe key cb h in
       RealTimeManager.timers h1 !! id = None
       ∧ RealTimeManager.intervals h1 !! key = None
       ∧ RealTimeManager.subscribers h1 !! key = None
       ∧ RealTimeManager.timers_of key h1 = ∅
       ∧ ∀ cb' ms,
           let h2 := (RealTimeManager.subscribe key cb' ms h1).2 in
           ∃ id', RealTimeManager.intervals h2 !! key = Some id'
                  ∧ id' ≠ id
                  ∧ RealTimeManager.timers h !! id' = None
                  ∧ RealTimeManager.timers_of key h2
                    = {[ id' := RealTimeManager.mkTimer key ms ]})
  ∧ (∀ key cb ms,
       RealTimeManager.intervals h !! key = None →
       let first := RealTimeManager.subscribe key cb ms h in
       let id := RealTimeManager.next_handle h in
       let h2 := first.1 first.2 in
       RealTimeManager.subscribers first.2 !! key = Some [cb]
       ∧ RealTimeManager.intervals first.2 !! key = Some id
       ∧ RealTimeManager.timers first.2 !! id
         = Some (RealTimeManager.mkTimer key ms)
       ∧ RealTimeManager.timers h !! id = None
       ∧ RealTimeManager.intervals h2 !! key = None
       ∧ RealTimeManager.subscribers h2 !! key = None
       ∧ RealTimeManager.timers h2 !! id = None
       ∧ ∀ cb' ms',
           let h3 := (RealTimeManager.subscribe key cb' ms' h2).2 in
           ∃ id', RealTimeManager.intervals h3 !! key = Some id'
                  ∧ id' ≠ id
                  ∧ RealTimeManager.subscribers h3 !! key = Some [cb']
                  ∧ RealTimeManager.timers_of key h3
                    = {[ id' := RealTimeManager.mkTimer key ms' ]}).
Proof.
  intros h.
  assert (Hh : consistent h) by apply consistent_run, consistent_empty.
  assert (Hcycle : ∀ g key cb id,
    consistent g →
    RealTimeManager.subscribers g !! key = Some [cb] →
    RealTimeManager.intervals g !! key = Some id →
    let g1 := RealTimeManager.unsubscribe key cb g in
    consistent g1
    ∧ RealTimeManager.next_handle g1 = RealTimeManager.next_handle g
    ∧ RealTimeManager.timers g1 !! id = None
    ∧ RealTimeManager.intervals g1 !! key = None
    ∧ RealTimeManager.subscribers g1 !! key = None
    ∧ RealTimeManager.timers_of key g1 = ∅).
  { intros g key cb id Hg Hs Hi g1.
    assert (Hg1 : consistent g1) by by apply consistent_unsubscribe.
    assert (Heq : g1 = RealTimeManager.mkHub
                         (delete key (RealTimeManager.intervals g))
                         (delete key (RealTimeManager.subscribers g))
                         (delete id (RealTimeManager.timers g))
                         (RealTimeManager.next_handle g)).
    { apply (unsubscribe_last key cb [cb] id g); [done| |done].
      apply set_delete_only. }
    assert (Hi1 : RealTimeManager.intervals g1 !! key = None).
    { rewrite Heq. cbn. apply lookup_delete_eq. }
    split; [done|]. split; [by rewrite Heq|].
    split; [rewrite Heq; cbn; apply lookup_delete_eq|].
    split; [done|].
    split; [rewrite Heq; cbn; apply lookup_delete_eq|].
    by apply timers_of_inactive. }
  assert (Hstart : ∀ g key cb ms,
    consistent g →
    RealTimeManager.intervals g !! key = None →
    let g1 := (RealTimeManager.subscribe key cb ms g).2 in
    consistent g1
    ∧ RealTimeManager.next_handle g1 = Pos.succ (RealTimeManager.next_handle g)
    ∧ RealTimeManager.subscribers g1 !! key = Some [cb]
    ∧ RealTimeManager.intervals g1 !! key = Some (RealTimeManager.next_handle g)
    ∧ RealTimeManager.timers g1 !! RealTimeManager.next_handle g
      = Some (RealTimeManager.mkTimer key ms)
    ∧ RealTimeManager.timers g !! RealTimeManager.next_handle g = None
    ∧ RealTimeManager.timers_of key g1
      = {[ RealTimeManager.next_handle g := RealTimeManager.mkTimer key ms ]}).
  { intros g key cb ms Hg Hi g1.
    assert (Hg1 : consistent g1) by by apply consistent_subscribe.
    assert (Hs : RealTimeManager.subscribers g !! key = None).
    { destruct (RealTimeManager.subscribers g !! key) as [subs|] eqn:Hs; [|done].
      assert (is_Some (RealTimeManager.intervals g !! key)) as [? ?]
        by (apply (same_keys g Hg); eauto).
      congruence. }
    assert (Heq : g1 = RealTimeManager.mkHub
                         (<[key := RealTimeManager.next_handle g]>
                            (RealTimeManager.intervals g))
                         (<[key := [cb]]> (RealTimeManager.subscribers g))
                         (<[RealTimeManager.next_handle g
                            := RealTimeManager.mkTimer key ms]>
                            (RealTimeManager.timers g))
                         (Pos.succ (RealTimeManager.next_handle g))).
    { subst g1. unfold RealTimeManager.subscribe. cbn [snd]. by rewrite Hi, Hs. }
    assert (Hi1 : RealTimeManager.intervals g1 !! key
                  = Some (RealTimeManager.next_handle g)).
    { rewrite Heq. cbn. by rewrite lookup_insert_eq. }
    assert (Ht1 : RealTimeManager.timers g1 !! RealTimeManager.next_handle g
                  = Some (RealTimeManager.mkTimer key ms)).
    { rewrite Heq. cbn. by rewrite lookup_insert_eq. }
    split; [done|]. split; [by rewrite Heq|].
    split; [rewrite Heq; cbn; by rewrite lookup_insert_eq|].
    split; [done|]. split; [done|]. split.
    - destruct (RealTimeManager.timers g !! RealTimeManager.next_handle g)
        as [t|] eqn:Ht; [|done].
      pose proof (handles_fresh g Hg _ _ Ht). lia.
    - by apply timers_of_active. }
  split; [|split; [|split]].
  - intros key. rewrite (same_keys h Hh key). split.
    + intros [subs Hs]. exists subs. split; [done|]. by eapply sets_nonempty.
    + intros (subs & Hs & _). eauto.
  - intros key cb ms h1.
    assert (Hh1 : consistent h1) by by apply consistent_subscribe.
    destruct (subscribe_registers key cb ms h) as (subs & Hs & Hcb).
    assert (∃ id, RealTimeManager.intervals h1 !! key = Some id) as [id Hi].
    { apply (same_keys h1 Hh1). eauto. }
    destruct (handles_live h1 Hh1 key id Hi) as [ms' Ht].
    exists id, subs, (RealTimeManager.mkTimer key ms'). done.
  - intros key cb id Hs Hi h1.
    destruct (Hcycle h key cb id Hh Hs Hi) as (Hh1 & Hnext & Ht & Hi1 & Hs1 & Hof).
    fold h1 in Hh1, Hnext, Ht, Hi1, Hs1, Hof.
    split; [done|]. split; [done|]. split; [done|]. split; [done|].
    intros cb' ms h2.
    destruct (Hstart h1 key cb' ms Hh1 Hi1) as (_ & _ & _ & Hi2 & _ & _ & Hof2).
    fold h2 in Hi2, Hof2. rewrite Hnext in Hi2, Hof2.
    exists (RealTimeManager.next_handle h).
    destruct (handles_live h Hh key id Hi) as [ms' Hid].
    pose proof (handles_fresh h Hh id _ Hid) as Hlt.
    split; [done|]. split; [lia|]. split; [|done].
    destruct (RealTimeManager.timers h !! RealTimeManager.next_handle h)
      as [t|] eqn:Hold; [|done].
    pose proof (handles_fresh h Hh _ _ Hold). lia.
  - intros key cb ms Hi first id h2.
    destruct (Hstart h key cb ms Hh Hi) as (Hh1 & Hnext1 & Hs1 & Hi1 & Ht1 & Hold & _).
    fold first in Hh1, Hnext1, Hs1, Hi1, Ht1. fold id in Hnext1, Hi1, Ht1, Hold.
    change (first.1) with (RealTimeManager.unsubscribe key cb) in h2.
    destruct (Hcycle first.2 key cb id Hh1 Hs1 Hi1)
      as (Hh2 & Hnext2 & Ht2 & Hi2 & Hs2 & _).
    fold h2 in Hh2, Hnext2, Ht2, Hi2, Hs2.
    split; [done|]. split; [done|]. split; [done|]. split; [done|].
    split; [done|]. split; [done|]. split; [done|].
    intros cb' ms' h3.
    destruct (Hstart h2 key cb' ms' Hh2 Hi2) as (_ & _ & Hs3 & Hi3 & _ & _ & Hof3).
    fold h3 in Hs3, Hi3, Hof3. rewrite Hnext2, Hnext1 in Hi3, Hof3.
    exists (Pos.succ id). split; [done|]. split; [lia|]. done.
Qed.

Lemma timer_iff_subscribers_witness :
  let first := RealTimeManager.subscribe "metrics" 1%nat 5000
                 RealTimeManager.empty_hub in
  let h2 := first.1 first.2 in
  let h3 := (RealTimeManager.subscribe "metrics" 2%nat 7000 h2).2 in
  RealTimeManager.subscribers first.2 !! "metrics" = Some [1%nat]
  ∧ RealTimeManager.timers first.2 !! 1%positive
    = Some (RealTimeManager.mkTimer "metrics" 5000)
  ∧ RealTimeManager.intervals h2 !! "metrics" = None
  ∧ RealTimeManager.timers h2 !! 1%positive = None
  ∧ ∃ id', RealTimeManager.intervals h3 !! "metrics" = Some id'
           ∧ id' ≠ 1%positive
           ∧ RealTimeManager.subscribers h3 !! "metrics" = Some [2%nat]
           ∧ RealTimeManager.timers_of "metrics" h3
             = {[ id' := RealTimeManager.mkTimer "metrics" 7000 ]}.
Proof.
  destruct (timer_iff_subscribers (flaky_backend 0 JNull nobody) [] cold_start)
    as (_ & _ & _ & H).
  destruct (H "metrics" 1%nat 5000) as (Hs & _ & Ht & _ & Hi2 & _ & Ht2 & Hnext).
  - reflexivity.
  - cbv zeta. split; [exact Hs|]. split; [exact Ht|]. split; [exact Hi2|].
    split; [exact Ht2|]. exact (Hnext 2%nat 7000).
Defined.

(** ** Keys the polling function does not know *)

(** C9: subscribing to a key outside predictions, metrics, realtime and
    health registers the callback and leaves the key with a live timer
    (a new one, with the requested interval, when the key had none).
    A tick for that key changes nothing: no request, no callback call.
    The timer stays through every sequence of operations that contains
    no stopAll and no unsubscribe for the key; stopAll removes it, and so
    does the unsubscribe of the only callback. *)
Theorem unrecognized_key_idle_timer env key cb ms h :
  recognized key = false →
  reachable h →
  let h' := (RealTimeManager.subscribe key cb ms h).2 in
  (∃ subs, RealTimeManager.subscribers h' !! key = Some subs ∧ cb ∈ subs)
  ∧ ∃ id t,
      RealTimeManager.intervals h' !! key = Some id
      ∧ RealTimeManager.timers h' !! id = Some t
      ∧ RealTimeManager.timer_key t = key
      ∧ (RealTimeManager.intervals h !! key = None →
         RealTimeManager.timers h !! id = None
         ∧ t = RealTimeManager.mkTimer key ms)
      ∧ (∀ hub w, RealTimeManager.tick env hub key w = (Ok tt, w))
      ∧ (∀ w, RealTimeManager.step env (RealTimeManager.Fire id) (h', w) = (h', w))
      ∧ (∀ ops w, Forall (spares key) ops →
           let st := RealTimeManager.run env ops (h', w) in
           RealTimeManager.intervals st.1 !! key = Some id
           ∧ RealTimeManager.timers st.1 !! id = Some t)
      ∧ RealTimeManager.timers (RealTimeManager.stopAll h') !! id = None
      ∧ (RealTimeManager.subscribers h' !! key = Some [cb] →
         RealTimeManager.timers (RealTimeManager.unsubscribe key cb h') !! id
         = None).
Proof.
  intros Hkey Hh%reachable_consistent h'.
  assert (Hh' : consistent h') by by apply consistent_subscribe.
  split; [apply subscribe_registers|].
  assert (∃ id, RealTimeManager.intervals h' !! key = Some id) as [id Hi].
  { apply (same_keys h' Hh').
    destruct (subscribe_registers key cb ms h) as (subs & Hs & _). eauto. }
  destruct (handles_live h' Hh' key id Hi) as [ms' Ht].
  exists id, (RealTimeManager.mkTimer key ms').
  split; [done|]. split; [done|]. split; [done|]. split.
  { intros Hnone. destruct (subscribe_inactive key cb ms h Hnone) as [Hint Htim].
    fold h' in Hint, Htim. rewrite Hint, lookup_insert_eq in Hi.
    injection Hi as <-. rewrite Htim, lookup_insert_eq in Ht. split; [|congruence].
    destruct (RealTimeManager.timers h !! RealTimeManager.next_handle h)
      as [t|] eqn:Hold; [|done].
    pose proof (handles_fresh h Hh _ _ Hold). lia. }
  split; [intros hub w; by apply tick_unrecognized|].
  split.
  { intros w. cbn [RealTimeManager.step fst snd]. rewrite Ht.
    cbn [RealTimeManager.timer_key]. by rewrite tick_unrecognized. }
  split; [intros ops w Hops; by apply timer_survives|].
  split.
  { destruct (RealTimeManager.timers (RealTimeManager.stopAll h') !! id)
      as [t|] eqn:Hstop; [|done].
    apply stopAll_timers in Hstop as [_ Hno]. by apply Hno in Hi. }
  intros Hs.
  rewrite (unsubscribe_last key cb [cb] id h' Hs (set_delete_only cb) Hi).
  cbn. apply lookup_delete_eq.
Qed.

Lemma unrecognized_key_idle_timer_witness :
  let env := flaky_backend 0 JNull nobody in
  let h' := (RealTimeManager.subscribe "cities" 7%nat 3000
               RealTimeManager.empty_hub).2 in
  ∃ id t, RealTimeManager.intervals h' !! "cities" = Some id
          ∧ RealTimeManager.timers h' !! id = Some t
          ∧ ∀ hub w, RealTimeManager.tick env hub "cities" w = (Ok tt, w).
Proof.
  intros env h'.
  destruct (unrecognized_key_idle_timer env "cities" 7%nat 3000
              RealTimeManager.empty_hub) as (_ & id & t & Hi & Ht & _ & _ & Htick & _).
  - reflexivity.
  - exists env, [], cold_start. reflexivity.
  - exists id, t. split; [exact Hi|]. split; [exact Ht|exact Htick].
Defined.

(** ** One callback, two consumers *)

(** C10: when two consumers subscribe the same callback to a key, the
    second subscribe leaves the subscriber set as the first made it, with
    the callback in it once.  The two unsubscribe functions act alike:
    one call of either takes the callback out of the set, and when it was
    the only callback the key loses its timer and both its entries.  A
    further call, like every call for a callback that is not in the set
    of its key, leaves the hub as it is. *)
Theorem shared_callback_stored_once key cb ms1 ms2 h :
  reachable h →
  let first := RealTimeManager.subscribe key cb ms1 h in
  let second := RealTimeManager.subscribe key cb ms2 first.2 in
  let h2 := second.2 in
  RealTimeManager.subscribers h2 !! key = RealTimeManager.subscribers first.2 !! key
  ∧ (∃ subs, RealTimeManager.subscribers h2 !! key = Some subs
             ∧ count_occ Nat.eq_dec subs cb = 1%nat)
  ∧ first.1 h2 = second.1 h2
  ∧ (∀ subs, RealTimeManager.subscribers (first.1 h2) !! key = Some subs →
             cb ∉ subs)
  ∧ (RealTimeManager.subscribers h2 !! key = Some [cb] →
     RealTimeManager.intervals (first.1 h2) !! key = None
     ∧ RealTimeManager.subscribers (first.1 h2) !! key = None
     ∧ RealTimeManager.timers_of key (first.1 h2) = ∅)
  ∧ second.1 (first.1 h2) = first.1 h2
  ∧ (∀ g, reachable g →
          (∀ subs, RealTimeManager.subscribers g !! key = Some subs → cb ∉ subs) →
          RealTimeManager.unsubscribe key cb g = g).
Proof.
  intros Hh%reachable_consistent first second h2.
  assert (Hh1 : consistent first.2) by by apply consistent_subscribe.
  assert (Hh2 : consistent h2) by by apply consistent_subscribe.
  destruct (subscribe_registers key cb ms1 h) as (s1 & Hs1 & Hcb1).
  fold first in Hs1.
  assert (Hsame : RealTimeManager.subscribers h2 !! key = Some s1).
  { subst h2 second. unfold RealTimeManager.subscribe at 1. cbn [snd].
    rewrite Hs1. cbn [default]. rewrite set_add_present by done.
    destruct (RealTimeManager.intervals first.2 !! key);
      cbn [RealTimeManager.subscribers]; by rewrite lookup_insert_eq. }
  change (first.1) with (RealTimeManager.unsubscribe key cb).
  change (second.1) with (RealTimeManager.unsubscribe key cb).
  assert (Hh3 : consistent (RealTimeManager.unsubscribe key cb h2))
    by by apply consistent_unsubscribe.
  split; [by rewrite Hsame, Hs1|].
  split.
  { exists s1. split; [done|].
    apply NoDup_count_occ'.
    - apply NoDup_ListNoDup, (sets_nodup h2 Hh2 key s1 Hsame).
    - by apply list_elem_of_In. }
  split; [done|].
  split; [intros subs; apply unsubscribe_removes|].
  split.
  { intros Hs.
    assert (∃ id, RealTimeManager.intervals h2 !! key = Some id) as [id Hi].
    { apply (same_keys h2 Hh2). eauto. }
    assert (Hi3 : RealTimeManager.intervals (RealTimeManager.unsubscribe key cb h2)
                  !! key = None).
    { rewrite (unsubscribe_last key cb [cb] id h2 Hs (set_delete_only cb) Hi).
      cbn. apply lookup_delete_eq. }
    split; [done|]. split; [|by apply timers_of_inactive].
    rewrite (unsubscribe_last key cb [cb] id h2 Hs (set_delete_only cb) Hi).
    cbn. apply lookup_delete_eq. }
  split.
  { apply unsubscribe_absent; [done|]. intros subs. apply unsubscribe_removes. }
  intros g Hg%reachable_consistent Habs. by apply unsubscribe_absent.
Qed.

Lemma shared_callback_stored_once_witness :
  let first := RealTimeManager.subscribe "health" 4%nat 5000
                 RealTimeManager.empty_hub in
  let second := RealTimeManager.subscribe "health" 4%nat 15000 first.2 in
  RealTimeManager.subscribers second.2 !! "health" = Some [4%nat]
  ∧ RealTimeManager.intervals (first.1 second.2) !! "health" = None
  ∧ second.1 (first.1 second.2) = first.1 second.2.
Proof.
  destruct (shared_callback_stored_once "health" 4%nat 5000 15000
              RealTimeManager.empty_hub)
    as (_ & _ & _ & _ & Honly & Hagain & _).
  - exists (flaky_backend 0 JNull nobody), [], cold_start. reflexivity.
  - cbv zeta. split; [reflexivity|].
    split; [|exact Hagain].
    apply Honly. reflexivity.
Defined.

(** ** What a tick delivers *)

(** C2, as the code has it: when the poll of a tick resolves, the tick
    calls the callbacks registered for the key in the order they were
    added, up to and including the first one that throws, each with the
    fetched payload.  What that callback threw is caught and logged with
    [console.error], once, after the calls, and the tick itself does not
    raise; when no callback throws every registered callback receives the
    payload and nothing is logged.  The callbacks registered after one
    that throws are not called in that tick. *)
Theorem tick_delivers_until_first_throw env h key w payload w1 subs :
  RealTimeManager.poll env key w = (Ok (Some payload), w1) →
  RealTimeManager.subscribers h !! key = Some subs →
  ∃ w2,
    RealTimeManager.tick env h key w = (Ok tt, w2)
    ∧ trace w2
      = trace w1
        ++ ((fun cb => EInvoke cb payload) <$> up_to_first_throw env subs payload)
        ++ match first_thrower env subs payload with
           | Some cb => [tick_failed key (CallbackError cb)]
           | None => []
           end
    ∧ invocations (trace w2)
      = invocations (trace w1)
        ++ ((fun cb => (cb, payload)) <$> up_to_first_throw env subs payload)
    ∧ ((∀ cb, cb ∈ subs → cb_throws env cb payload = false) →
       up_to_first_throw env subs payload = subs
       ∧ first_thrower env subs payload = None)
    ∧ (∀ pre cb post,
         subs = pre ++ cb :: post →
         (∀ x, x ∈ pre → cb_throws env x payload = false) →
         cb_throws env cb payload = true →
         up_to_first_throw env subs payload = pre ++ [cb]
         ∧ first_thrower env subs payload = Some cb).
Proof.
  intros Hpoll Hs. unfold RealTimeManager.tick, try_catch.
  unfold mbind, M_bind, bind. rewrite Hpoll, Hs, forEach_spec.
  assert (Htrace : invocations
            (trace w1 ++ ((fun cb => EInvoke cb payload)
                          <$> up_to_first_throw env subs payload))
          = invocations (trace w1)
            ++ ((fun cb => (cb, payload)) <$> up_to_first_throw env subs payload)).
  { by rewrite invocations_app, invocations_invoke. }
  assert (Hrest :
    ((∀ cb, cb ∈ subs → cb_throws env cb payload = false) →
       up_to_first_throw env subs payload = subs
       ∧ first_thrower env subs payload = None)
    ∧ (∀ pre cb post,
         subs = pre ++ cb :: post →
         (∀ x, x ∈ pre → cb_throws env x payload = false) →
         cb_throws env cb payload = true →
         up_to_first_throw env subs payload = pre ++ [cb]
         ∧ first_thrower env subs payload = Some cb)).
  { split.
    - intros Hok. split;
        [by apply up_to_first_throw_none|by apply first_thrower_none].
    - intros pre cb post -> Hpre Hcb. split;
        [by apply up_to_first_throw_stops|by apply first_thrower_stops]. }
  destruct (first_thrower env subs payload) as [cb|].
  - unfold console_error, emit, tick_failed. eexists. split; [done|].
    cbn [trace]. split; [by rewrite <- app_assoc|]. split; [|done].
    rewrite invocations_app, Htrace. cbn [invocations omap list_omap].
    by rewrite app_nil_r.
  - eexists. split; [done|]. cbn [trace]. split; [by rewrite app_nil_r|].
    by split.
Qed.

Lemma tick_delivers_until_first_throw_witness :
  let payload := JObj [("accuracy", JNum 93)] in
  let env := flaky_backend 0 payload (Nat.eqb 2) in
  let h := subscribe_all "metrics" [(1%nat, 5000); (2%nat, 15000); (3%nat, 10000)]
                         RealTimeManager.empty_hub in
  ∃ w2, RealTimeManager.tick env h "metrics" cold_start = (Ok tt, w2)
        ∧ trace w2
          = [EFetch "http://localhost:8002/analytics/metrics";
             EInvoke 1%nat payload; EInvoke 2%nat payload;
             tick_failed "metrics" (CallbackError 2%nat)].
Proof.
  intros payload env h.
  destruct (tick_delivers_until_first_throw env h "metrics" cold_start payload
              (RealTimeManager.poll env "metrics" cold_start).2
              [1%nat; 2%nat; 3%nat])
    as (w2 & Htick & Htrace & _).
  - reflexivity.
  - reflexivity.
  - exists w2. split; [exact Htick|]. rewrite Htrace. reflexivity.
Defined.

(** C2 as stated fails: with two callbacks registered for [metrics] of
    which the first throws, a tick whose poll resolves calls the first
    and never reaches the second. *)
Lemma tick_skips_subscribers_after_a_throw :
  let payload := JObj [("accuracy", JNum 93)] in
  let env := flaky_backend 0 payload (Nat.eqb 1) in
  let h := subscribe_all "metrics" [(1%nat, 5000); (2%nat, 15000)]
                         RealTimeManager.empty_hub in
  let after := RealTimeManager.tick env h "metrics" cold_start in
  RealTimeManager.subscribers h !! "metrics" = Some [1%nat; 2%nat]
  ∧ (DataService.getMetrics env cold_start).1 = Ok payload
  ∧ after.1 = Ok tt
  ∧ invocations (trace after.2) = [(1%nat, payload)]
  ∧ (2%nat, payload) ∉ invocations (trace after.2).
Proof.
  vm_compute. repeat split.
  intros Hin. apply list_elem_of_singleton in Hin. discriminate.
Qed.

(** * Further properties *)

(** ** What a call adds to the trace *)

Section FetcherTrace.

Variable env : Env.
Variable endpoint : string.

Local Abbreviation url := (url_of endpoint).

Lemma loop_trace cached retries : ∀ r i w,
  ∃ added,
    trace (DataService.retry_loop env endpoint cached retries r i w).2
    = trace w ++ added
    ∧ Forall (fetcher_event url) added.
Proof.
  induction r as [|r IH]; intros i w.
  { exists []. by rewrite app_nil_r. }
  destruct (payload_of (respond env url (requests_to url (trace w))))
    as [v|] eqn:Hp.
  - rewrite (loop_success _ _ _ _ _ _ _ _ Hp). cbn [snd trace answered].
    eexists. split; [done|]. by repeat constructor.
  - assert (Hf : is_failure (respond env url (requests_to url (trace w))) = true).
    { unfold is_failure. by rewrite Hp. }
    destruct (decide (Z.of_nat i = Z.of_nat retries - 1)) as [Hi|Hi].
    + rewrite loop_failure_last by done.
      destruct cached; cbn [snd trace gave_up answered]; rewrite <- ?app_assoc;
        (eexists; split; [done|]); by repeat constructor.
    + rewrite loop_failure_retry by done.
      destruct (IH (S i) (backed_off env endpoint i w)) as (added & -> & Hadded).
      cbn [trace backed_off answered]. rewrite <- !app_assoc.
      eexists. split; [done|]. by repeat constructor.
Qed.

Lemma fetchWithRetry_trace retries w :
  ∃ added,
    trace (DataService.fetchWithRetry env endpoint retries w).2 = trace w ++ added
    ∧ Forall (fetcher_event url) added.
Proof.
  unfold DataService.fetchWithRetry, mbind, M_bind, bind, cache_get, Date_now.
  destruct (cache w !! endpoint) as [c|]; [|apply loop_trace].
  destruct (now w - timestamp c <? DataService.cacheTimeout); [|apply loop_trace].
  exists []. by rewrite app_nil_r.
Qed.

Lemma fetcher_events_no_invocation added :
  Forall (fetcher_event url) added → invocations added = [].
Proof.
  induction 1 as [|e added He _ IH]; [done|].
  destruct e; cbn in *; done.
Qed.

Lemma fetcher_events_other_url url' added :
  url' ≠ url → Forall (fetcher_event url) added → requests_to url' added = 0%nat.
Proof.
  intros Hne. induction 1 as [|e added He _ IH]; [done|].
  destruct e as [u| | | |]; cbn in *; try done.
  subst u. destruct (String.eqb_spec url url') as [Heq|_]; [by subst|done].
Qed.

(** The outcome of a call, case by case. *)
Lemma fetchWithRetry_cases retries w :
  let n := requests_to url (trace w) in
  let call := DataService.fetchWithRetry env endpoint retries w in
  (∃ c, cache w !! endpoint = Some c
        ∧ now w - timestamp c < DataService.cacheTimeout
        ∧ call = (Ok (data c), w))
  ∨ (no_fresh_entry w endpoint ∧ retries = 0%nat ∧ call = (Ok JUndefined, w))
  ∨ (no_fresh_entry w endpoint
     ∧ ∃ k v, (k < retries)%nat ∧ all_fail env url n k
              ∧ payload_of (respond env url (n + k)) = Some v
              ∧ call.1 = Ok v
              ∧ cache call.2 = <[endpoint := mkEntry v (now call.2)]> (cache w)
              ∧ network_calls (trace call.2) = (network_calls (trace w) + S k)%nat
              ∧ delays (trace call.2) = delays (trace w) ++ backoff 0 k)
  ∨ (no_fresh_entry w endpoint ∧ (0 < retries)%nat ∧ all_fail env url n retries
     ∧ call.1 = match cache w !! endpoint with
                | Some c => Ok (data c)
                | None => Throw (error_of (respond env url (n + (retries - 1))))
                end
     ∧ cache call.2 = cache w
     ∧ network_calls (trace call.2) = (network_calls (trace w) + retries)%nat
     ∧ delays (trace call.2) = delays (trace w) ++ backoff 0 (retries - 1)).
Proof.
  intros n call. subst call.
  assert (Hdec : no_fresh_entry w endpoint
                 ∨ ∃ c, cache w !! endpoint = Some c
                        ∧ now w - timestamp c < DataService.cacheTimeout).
  { unfold no_fresh_entry. destruct (cache w !! endpoint) as [c|]; [|by left].
    destruct (decide (DataService.cacheTimeout ≤ now w - timestamp c));
      [by left|right]. exists c. split; [done|lia]. }
  destruct Hdec as [Hmiss|(c & Hc & Hfresh)].
  2: { left. exists c. split; [done|]. split; [done|].
       by apply fetchWithRetry_fresh. }
  right. rewrite (fetchWithRetry_miss _ _ _ _ Hmiss).
  destruct retries as [|r]; [left; done|]. right.
  destruct (first_success env url n (S r)) as [Hfail|(k & v & Hk & Hfail & Hv)].
  - right. split; [done|]. split; [lia|]. split; [done|].
    destruct (loop_exhausted env endpoint (cache w !! endpoint) (S r) (S r) 0 w)
      as (w' & -> & Hc & Hn & Hd); [done|lia|done|].
    cbn [fst snd]. by rewrite Hc, Hn, Hd.
  - left. split; [done|]. exists k, v. split; [done|]. split; [done|].
    split; [done|].
    destruct (loop_succeeds_after env endpoint (cache w !! endpoint) (S r)
                k (S r) 0 w v)
      as (w' & -> & Hc & Hn & Hd); [done..|].
    cbn [fst snd]. by rewrite Hn, Hd.
Qed.

End FetcherTrace.

(** ** Requests, delays and the cache *)

Lemma total_delay_backoff i count :
  foldr Z.add 0 (backoff i count)
  = (2 ^ Z.of_nat (i + count) - 2 ^ Z.of_nat i) * 1000.
Proof.
  revert i. induction count as [|count IH]; intros i.
  - rewrite Nat.add_0_r. unfold backoff. simpl. lia.
  - rewrite backoff_cons. cbn [foldr]. rewrite IH.
    replace (i + S count)%nat with (S i + count)%nat by lia.
    replace (Z.of_nat (S i)) with (Z.succ (Z.of_nat i)) by lia.
    rewrite Z.pow_succ_r by lia. lia.
Qed.

Lemma total_delay_app t added :
  total_delay (t ++ added) = total_delay t + total_delay added.
Proof.
  unfold total_delay. rewrite delays_app.
  induction (delays t) as [|d ds IH]; cbn; lia.
Qed.

Lemma call_request_bound env endpoint retries w :
  let after := (DataService.fetchWithRetry env endpoint retries w).2 in
  (network_calls (trace after) ≤ network_calls (trace w) + retries)%nat
  ∧ (∀ url', url' ≠ url_of endpoint →
             requests_to url' (trace after) = requests_to url' (trace w))
  ∧ invocations (trace after) = invocations (trace w).
Proof.
  intros after. subst after. split.
  - destruct (fetchWithRetry_cases env endpoint retries w)
      as [(c & _ & _ & ->)|[(_ & _ & ->)|[(_ & k & v & Hk & _ & _ & _ & _ & -> & _)
                                         |(_ & _ & _ & _ & _ & -> & _)]]];
      cbn [snd]; lia.
  - destruct (fetchWithRetry_trace env endpoint retries w) as (added & -> & Hadded).
    split.
    + intros url' Hne. rewrite requests_to_app.
      rewrite (fetcher_events_other_url endpoint url' added); [lia|done..].
    + rewrite invocations_app, (fetcher_events_no_invocation endpoint added Hadded).
      by rewrite app_nil_r.
Qed.

(** X1: whatever the backend does, a call of [fetchWithRetry] makes at
    most [retries] requests, all of them to the URL of its endpoint, and
    calls no subscriber. *)
Theorem fetchWithRetry_request_bound env endpoint retries w :
  let after := (DataService.fetchWithRetry env endpoint retries w).2 in
  (network_calls (trace after) ≤ network_calls (trace w) + retries)%nat
  ∧ (∀ url', url' ≠ url_of endpoint →
             requests_to url' (trace after) = requests_to url' (trace w))
  ∧ invocations (trace after) = invocations (trace w).
Proof. exact (call_request_bound env endpoint retries w). Qed.

(** X2: the backoff delays of one call add up to at most
    [(2^(retries-1) - 1) * 1000] milliseconds, that is 3 seconds for the
    default of three attempts. *)
Theorem fetchWithRetry_total_backoff env endpoint retries w :
  let after := (DataService.fetchWithRetry env endpoint retries w).2 in
  total_delay (trace w) ≤ total_delay (trace after)
  ∧ total_delay (trace after)
    ≤ total_delay (trace w) + (2 ^ Z.of_nat (retries - 1) - 1) * 1000.
Proof.
  intros after. subst after.
  assert (Hpow : ∀ k, (k ≤ retries - 1)%nat →
            0 ≤ (2 ^ Z.of_nat k - 1) * 1000
            ≤ (2 ^ Z.of_nat (retries - 1) - 1) * 1000).
  { intros k Hk.
    assert (2 ^ Z.of_nat k ≤ 2 ^ Z.of_nat (retries - 1))
      by (apply Z.pow_le_mono_r; lia).
    assert (0 < 2 ^ Z.of_nat k) by (apply Z.pow_pos_nonneg; lia). lia. }
  assert (Hsum : ∀ t k, delays t = delays (trace w) ++ backoff 0 k →
            total_delay t = total_delay (trace w) + (2 ^ Z.of_nat k - 1) * 1000).
  { intros t k Ht. unfold total_delay. rewrite Ht, foldr_app.
    rewrite total_delay_backoff. cbn [Nat.add].
    change (2 ^ Z.of_nat 0) with 1.
    generalize ((2 ^ Z.of_nat k - 1) * 1000). intros z. clear Ht.
    induction (delays (trace w)) as [|d ds IH]; cbn [foldr]; lia. }
  destruct (fetchWithRetry_cases env endpoint retries w)
    as [(c & _ & _ & ->)|[(_ & _ & ->)|[(_ & k & v & Hk & _ & _ & _ & _ & _ & Hd)
                                       |(_ & _ & _ & _ & _ & _ & Hd)]]];
    cbn [snd].
  - pose proof (Hpow 0%nat). cbn in *. lia.
  - pose proof (Hpow 0%nat). cbn in *. lia.
  - rewrite (Hsum _ _ Hd). pose proof (Hpow k). lia.
  - rewrite (Hsum _ _ Hd). pose proof (Hpow (retries - 1)%nat). lia.
Qed.

Lemma call_cache_frame env endpoint retries w :
  let call := DataService.fetchWithRetry env endpoint retries w in
  (cache call.2 = cache w
   ∨ ∃ v, call.1 = Ok v
          ∧ cache call.2 = <[endpoint := mkEntry v (now call.2)]> (cache w))
  ∧ (∀ key, key ≠ endpoint → cache call.2 !! key = cache w !! key)
  ∧ (∀ key, is_Some (cache w !! key) → is_Some (cache call.2 !! key)).
Proof.
  intros call.
  assert (H : cache call.2 = cache w
              ∨ ∃ v, call.1 = Ok v
                     ∧ cache call.2 = <[endpoint := mkEntry v (now call.2)]> (cache w)).
  { subst call.
    destruct (fetchWithRetry_cases env endpoint retries w)
      as [(c & _ & _ & ->)|[(_ & _ & ->)|[(_ & k & v & _ & _ & _ & Hr & Hc & _)
                                         |(_ & _ & _ & _ & Hc & _)]]];
      [by left|by left| |by left].
    right. by exists v. }
  split; [done|]. destruct H as [->|(v & _ & ->)]; [done|]. split.
  - intros key Hne. by rewrite lookup_insert_ne.
  - intros key Hsome. destruct (decide (endpoint = key)) as [<-|Hne].
    + rewrite lookup_insert_eq. eauto.
    + by rewrite lookup_insert_ne.
Qed.


(** X4: when a call gets its value from the network, after any number of
    failed attempts, the same call made again before the cache timeout
    has passed since the response returns that value and leaves the world
    as it is: no request is made. *)
Theorem network_result_is_cached env endpoint retries w k v t2 :
  no_fresh_entry w endpoint →
  (k < retries)%nat →
  all_fail env (url_of endpoint) (requests_to (url_of endpoint) (trace w)) k →
  payload_of (respond env (url_of endpoint)
                (requests_to (url_of endpoint) (trace w) + k)) = Some v →
  let first := DataService.fetchWithRetry env endpoint retries w in
  t2 - now first.2 < DataService.cacheTimeout →
  first.1 = Ok v
  ∧ DataService.fetchWithRetry env endpoint retries (at_time t2 first.2)
    = (Ok v, at_time t2 first.2).
Proof.
  intros Hmiss Hk Hfail Hv first. subst first.
  rewrite (fetchWithRetry_miss _ _ _ _ Hmiss).
  destruct (loop_succeeds_after env endpoint (cache w !! endpoint) retries
              k retries 0 w v) as (w' & -> & Hc & _); [done..|].
  cbn [fst snd]. intros Ht2. split; [done|].
  apply (fetchWithRetry_fresh env endpoint retries (at_time t2 w')
           (mkEntry v (now w'))); [|done].
  cbn [at_time cache]. by rewrite Hc, lookup_insert_eq.
Qed.

Lemma network_result_is_cached_witness :
  let env := flaky_backend 2 (JNum 7) nobody in
  let first := DataService.fetchWithRetry env "/health" 3 cold_start in
  first.1 = Ok (JNum 7)
  ∧ DataService.fetchWithRetry env "/health" 3 (at_time 200000 first.2)
    = (Ok (JNum 7), at_time 200000 first.2).
Proof.
  apply (network_result_is_cached (flaky_backend 2 (JNum 7) nobody) "/health"
           3 cold_start 2 (JNum 7) 200000).
  - exact I.
  - lia.
  - intros j Hj. destruct j as [|[|j]]; [reflexivity|reflexivity|lia].
  - reflexivity.
  - vm_compute. reflexivity.
Defined.

(** X5: a value returned by a call is never made up: it is the value of
    the entry the cache held for the endpoint when the call started, or
    the payload of one of the at most [retries] requests the call could
    make, or [undefined] when no attempt is allowed at all. *)
Theorem fetchWithRetry_result_provenance env endpoint retries w v :
  (DataService.fetchWithRetry env endpoint retries w).1 = Ok v →
  (∃ c, cache w !! endpoint = Some c ∧ data c = v)
  ∨ (∃ k, (k < retries)%nat
          ∧ payload_of (respond env (url_of endpoint)
                          (requests_to (url_of endpoint) (trace w) + k)) = Some v)
  ∨ (retries = 0%nat ∧ v = JUndefined).
Proof.
  destruct (fetchWithRetry_cases env endpoint retries w)
    as [(c & Hc & _ & ->)|[(_ & -> & ->)|[(_ & k & v' & Hk & _ & Hv & -> & _)
                                         |(_ & _ & _ & -> & _)]]];
    cbn [fst].
  - intros [= <-]. left. eauto.
  - intros [= <-]. right. by right.
  - intros [= <-]. right. left. eauto.
  - destruct (cache w !! endpoint) as [c|]; [|done].
    intros [= <-]. left. eauto.
Qed.

Lemma fetchWithRetry_result_provenance_witness :
  (∃ c, cache stale_page !! "/cities" = Some c ∧ data c = JArr [JStr "nyc"])
  ∨ (∃ k, (k < 3)%nat
          ∧ payload_of (respond (flaky_backend 5 JNull nobody) (url_of "/cities")
                          (requests_to (url_of "/cities") (trace stale_page) + k))
            = Some (JArr [JStr "nyc"]))
  ∨ (3%nat = 0%nat ∧ JArr [JStr "nyc"] = JUndefined).
Proof.
  apply (fetchWithRetry_result_provenance (flaky_backend 5 JNull nobody)
           "/cities" 3 stale_page (JArr [JStr "nyc"])).
  vm_compute. reflexivity.
Defined.

(** ** Cache keys *)

Lemma has_amp_pretty_N_go x : ∀ s, has_amp s = false → has_amp (pretty_N_go x s) = false.
Proof.
  induction (N.lt_wf_0 x) as [x _ IH]; intros s Hs.
  assert (x = 0 ∨ 0 < x)%N as [->|Hx] by lia.
  - by rewrite pretty_N_go_0.
  - rewrite pretty_N_go_step by done. apply IH.
    { by apply N.div_lt. }
    cbn [has_amp]. rewrite Hs. unfold pretty_N_char. by repeat case_match.
Qed.

Lemma has_amp_pretty_Z (x : Z) : has_amp (pretty x) = false.
Proof.
  assert (HN : ∀ n : N, has_amp (pretty n) = false).
  { intros n. unfold pretty, pretty_N. case_decide; [done|].
    by apply has_amp_pretty_N_go. }
  destruct x as [|p|p]; [done|apply (HN (N.pos p))|].
  unfold pretty, pretty_Z. cbn [String.app has_amp Ascii.eqb].
  apply (HN (N.pos p)).
Qed.

(** Two strings without separator, each followed by nothing or by a
    separator and more, are equal only part by part. *)
Lemma split_at_amp : ∀ s1 s2 r1 r2,
  has_amp s1 = false → has_amp s2 = false →
  (r1 = "" ∨ ∃ r, r1 = String "&" r) →
  (r2 = "" ∨ ∃ r, r2 = String "&" r) →
  s1 +:+ r1 = s2 +:+ r2 → s1 = s2 ∧ r1 = r2.
Proof.
  induction s1 as [|a s1 IH]; intros [|b s2] r1 r2 H1 H2 Hr1 Hr2 Heq.
  - done.
  - cbn in Heq, H2. apply orb_false_iff in H2 as [Hb _].
    destruct Hr1 as [->|[r ->]]; [done|]. injection Heq as <- _. done.
  - cbn in Heq, H1. apply orb_false_iff in H1 as [Ha _].
    destruct Hr2 as [->|[r ->]]; [done|]. injection Heq as -> _. done.
  - cbn in Heq, H1, H2. injection Heq as -> Heq.
    apply orb_false_iff in H1 as [_ H1]. apply orb_false_iff in H2 as [_ H2].
    destruct (IH s2 r1 r2) as [-> ->]; done.
Qed.

Lemma predictionsEndpoint_parts env limit city :
  DataService.predictionsEndpoint env limit city
  = "/predictions?limit="
    +:+ pretty limit
    +:+ match effective_city city with
        | Some c => "&city=" +:+ form_encode env c
        | None => ""
        end.
Proof.
  assert (Hnil : ∀ s : string, s +:+ "" = s).
  { induction s as [|a s IH]; [done|].
    change (String a (s +:+ "") = String a s). by rewrite IH. }
  assert (Hassoc : ∀ s1 s2 s3 : string, (s1 +:+ s2) +:+ s3 = s1 +:+ (s2 +:+ s3)).
  { induction s1 as [|a s1 IH]; intros s2 s3; [done|].
    change (String a ((s1 +:+ s2) +:+ s3) = String a (s1 +:+ (s2 +:+ s3))).
    by rewrite IH. }
  unfold DataService.predictionsEndpoint, effective_city.
  destruct city as [c|]; [destruct (negb (String.eqb c "") && negb (String.eqb c "all"))|].
  - change "/predictions?limit=" with ("/predictions?" +:+ "limit=").
    by rewrite !Hassoc.
  - change "/predictions?limit=" with ("/predictions?" +:+ "limit=").
    by rewrite Hnil, !Hassoc.
  - change "/predictions?limit=" with ("/predictions?" +:+ "limit=").
    by rewrite Hnil, !Hassoc.
Qed.

(** X6: two endpoint calls share a cache entry exactly when they are the
    same method with the same parameters as sent, a missing or empty city
    and ['all'] all meaning no city filter; differently filtered requests
    never collide.  The encoding of city names is taken to be injective,
    as URL encoding is. *)
Theorem cache_keys_distinct env c1 c2 :
  Inj (=) (=) (form_encode env) →
  cache_key env c1 = cache_key env c2 ↔ normalize c1 = normalize c2.
Proof.
  intros Hinj. split.
  - destruct c1 as [|l1 city1| |h1| | |], c2 as [|l2 city2| |h2| | |];
      cbn [cache_key normalize]; try done;
      rewrite ?predictionsEndpoint_parts; unfold DataService.historicalEndpoint;
      try (cbn; discriminate).
    + intros Heq. apply (inj (String.app "/predictions?limit=")) in Heq.
      apply split_at_amp in Heq as [Hl Hc]; [|apply has_amp_pretty_Z..| |].
      * apply (inj pretty) in Hl as ->. f_equal.
        destruct (effective_city city1) as [x1|], (effective_city city2) as [x2|];
          try done.
        apply (inj (String.app "&city=")) in Hc. by apply Hinj in Hc as ->.
      * destruct (effective_city city1); [right; cbn; eauto|by left].
      * destruct (effective_city city2); [right; cbn; eauto|by left].
    + intros Heq. apply (inj (String.app "/analytics/historical?hours=")) in Heq.
      by apply (inj pretty) in Heq as ->.
  - destruct c1 as [|l1 city1| |h1| | |], c2 as [|l2 city2| |h2| | |];
      cbn [cache_key normalize]; try done.
    intros [= -> Hc]. by rewrite !predictionsEndpoint_parts, Hc.
    intros [= ->]. done.
Qed.

Lemma cache_keys_distinct_witness :
  cache_key (flaky_backend 0 JNull nobody) (GetPredictions 50 (Some "all"))
  = cache_key (flaky_backend 0 JNull nobody) (GetPredictions 50 None).
Proof.
  apply (cache_keys_distinct (flaky_backend 0 JNull nobody)
           (GetPredictions 50 (Some "all")) (GetPredictions 50 None)).
  - intros x y Hxy. exact Hxy.
  - reflexivity.
Defined.

(** ** Clearing and inspecting the cache *)

(** X7: [clearCache] takes away the fallback.  After it the cache lists
    no key, every call goes to the network, and a call whose three
    attempts fail raises the error of the last attempt whatever the cache
    held before. *)
Theorem clearCache_drops_fallback env call w :
  let cleared := (DataService.clearCache w).2 in
  let url := url_of (cache_key env call) in
  let n := requests_to url (trace w) in
  (DataService.getCacheInfo cleared).1 = Ok (DataService.mkCacheInfo [] 0)
  ∧ no_fresh_entry cleared (cache_key env call)
  ∧ (all_fail env url n 3 →
     (perform env call cleared).1 = Throw (error_of (respond env url (n + 2)))).
Proof.
  intros cleared url n.
  assert (Hmiss : no_fresh_entry cleared (cache_key env call)).
  { unfold no_fresh_entry. subst cleared. cbn. by rewrite lookup_empty. }
  split; [|split; [done|]].
  - subst cleared. unfold DataService.getCacheInfo. cbn.
    by rewrite map_to_list_empty, map_size_empty.
  - intros Hfail. rewrite perform_fetchWithRetry.
    destruct (retry_budget env (cache_key env call) DataService.default_retries
                cleared Hmiss) as [_ Hall].
    destruct Hall as [-> _]; [unfold DataService.default_retries; lia|done|].
    subst cleared. cbn [DataService.clearCache snd cache].
    by rewrite lookup_empty.
Qed.

Lemma clearCache_drops_fallback_witness :
  let env := flaky_backend 3 JNull nobody in
  (DataService.getCities env stale_page).1 = Ok (JArr [JStr "nyc"])
  ∧ (DataService.getCities env (DataService.clearCache stale_page).2).1
    = Throw (HttpError "HTTP 500: Internal Server Error").
Proof.
  intros env. split; [reflexivity|].
  destruct (clearCache_drops_fallback env GetCities stale_page) as (_ & _ & H).
  apply H. intros j Hj. destruct j as [|[|[|j]]]; (reflexivity || lia).
Defined.

(** X8: [getCacheInfo] lists each cached key once, stale entries
    included, and counts them.  A call never makes a listed key
    disappear and adds at most one key, its own. *)
Theorem getCacheInfo_after_call env call w :
  let after := (perform env call w).2 in
  ∃ before_info after_info,
    DataService.getCacheInfo w = (Ok before_info, w)
    ∧ DataService.getCacheInfo after = (Ok after_info, after)
    ∧ DataService.totalSize after_info = length (DataService.keys after_info)
    ∧ NoDup (DataService.keys after_info)
    ∧ (∀ key, key ∈ DataService.keys after_info ↔ is_Some (cache after !! key))
    ∧ DataService.keys before_info ⊆ DataService.keys after_info
    ∧ (∀ key, key ∈ DataService.keys after_info →
              key ∈ DataService.keys before_info ∨ key = cache_key env call)
    ∧ (DataService.totalSize before_info ≤ DataService.totalSize after_info
       ≤ DataService.totalSize before_info + 1)%nat.
Proof.
  intros after. eexists _, _. split; [done|]. split; [done|].
  cbn [DataService.keys DataService.totalSize].
  assert (Hkeys : ∀ (m : gmap string CacheEntry) key,
            key ∈ (map_to_list m).*1 ↔ is_Some (m !! key)).
  { intros m key. rewrite list_elem_of_fmap. split.
    - intros ([k e] & -> & Hin). apply elem_of_map_to_list in Hin. eauto.
    - intros [e He]. exists (key, e). split; [done|].
      by apply elem_of_map_to_list. }
  destruct (call_cache_frame env (cache_key env call)
              DataService.default_retries w) as (Hcache & Hother & Hkeep).
  rewrite <- perform_fetchWithRetry in Hcache, Hother, Hkeep.
  fold after in Hcache, Hother, Hkeep.
  split; [by rewrite length_fmap, length_map_to_list|].
  split; [apply NoDup_fst_map_to_list|].
  split; [apply Hkeys|].
  split; [intros key; rewrite !Hkeys; apply Hkeep|].
  split.
  - intros key. rewrite !Hkeys.
    destruct (decide (key = cache_key env call)) as [->|Hne]; [by right|].
    rewrite Hother by done. by left.
  - destruct Hcache as [->|(v & _ & ->)]; [lia|].
    rewrite map_size_insert. destruct (cache w !! cache_key env call); cbn; lia.
Qed.

(** ** The batch load *)

Lemma stamp_events env added : ∀ t seen, (stamp env t seen added).*2 = added.
Proof.
  induction added as [|e added IH]; intros t seen; [done|].
  cbn. by rewrite IH.
Qed.

Lemma merged_timelines (timelines : list (list (Z * Event))) :
  foldr (list_merge not_later) [] timelines ≡ₚ concat timelines.
Proof.
  induction timelines as [|l ls IH]; [done|].
  cbn. by rewrite merge_Permutation, IH.
Qed.

Lemma network_calls_Permutation t1 t2 :
  t1 ≡ₚ t2 → network_calls t1 = network_calls t2.
Proof.
  unfold network_calls. induction 1 as [|e t1 t2 _ IH|e1 e2 t|t1 t2 t3 _ IH1 _ IH2].
  - done.
  - cbn. destruct (is_fetch e); cbn; by rewrite ?IH.
  - cbn. by destruct (is_fetch e1), (is_fetch e2).
  - by rewrite IH1.
Qed.

(** The events [allSettled] adds to the trace are those the promises add
    when followed alone, in some order. *)
Lemma allSettled_trace env promises w :
  ∃ merged,
    trace (allSettled env promises w).2 = trace w ++ merged
    ∧ merged ≡ₚ concat ((fun p : M JSON =>
                           drop (length (trace w)) (trace (p w).2)) <$> promises).
Proof.
  eexists. split; [done|]. rewrite merged_timelines.
  induction promises as [|p promises IH]; [done|].
  cbn [fmap list_fmap concat]. rewrite fmap_app, IH. f_equiv.
  unfold follow. destruct (p w) as [r w']. cbn [timeline snd].
  by rewrite stamp_events.
Qed.

(** The endpoint calls are quiet promises: each adds at most three
    requests to the trace and no callback call. *)
Lemma allSettled_calls_quiet env endpoints w :
  let calls :=
    (fun ep => DataService.fetchWithRetry env ep DataService.default_retries)
    <$> endpoints in
  let after := (allSettled env calls w).2 in
  (network_calls (trace after)
   ≤ network_calls (trace w) + 3 * length endpoints)%nat
  ∧ invocations (trace after) = invocations (trace w).
Proof.
  intros calls after. subst after.
  destruct (allSettled_trace env calls w) as (merged & -> & Hperm).
  assert (Hadded : ∀ ep, ∃ added,
            drop (length (trace w))
                 (trace (DataService.fetchWithRetry env ep
                           DataService.default_retries w).2) = added
            ∧ (network_calls added ≤ 3)%nat
            ∧ Forall (fun e => invocations [e] = []) added).
  { intros ep.
    destruct (call_request_bound env ep DataService.default_retries w)
      as (Hn & _ & _).
    destruct (fetchWithRetry_trace env ep DataService.default_retries w)
      as (added & Ht & Hev).
    rewrite Ht in Hn |- *. rewrite drop_app_length. exists added.
    split; [done|]. split.
    - rewrite network_calls_app in Hn. unfold DataService.default_retries in Hn.
      lia.
    - eapply Forall_impl; [exact Hev|]. intros e He. by destruct e. }
  assert (Hall : (network_calls (concat ((fun p : M JSON =>
                    drop (length (trace w)) (trace (p w).2)) <$> calls))
                  ≤ 3 * length endpoints)%nat
                 ∧ Forall (fun e => invocations [e] = [])
                     (concat ((fun p : M JSON =>
                        drop (length (trace w)) (trace (p w).2)) <$> calls))).
  { subst calls. clear Hperm. induction endpoints as [|ep eps [IHn IHf]].
    - split; [done|constructor].
    - cbn [fmap list_fmap concat length].
      destruct (Hadded ep) as (added & -> & Hn & Hf). split.
      + rewrite network_calls_app. lia.
      + by apply Forall_app.
  }
  destruct Hall as [Hn Hf]. rewrite <- Hperm in Hf.
  rewrite network_calls_app, invocations_app, (network_calls_Permutation _ _ Hperm).
  split; [lia|].
  assert (invocations merged = []) as ->; [|by rewrite app_nil_r].
  clear -Hf. induction Hf as [|e l He _ IH]; [done|].
  change (invocations (e :: l)) with (invocations ([e] ++ l)).
  by rewrite invocations_app, He, IH.
Qed.

Lemma loadAllData_world env w :
  (DataService.loadAllData env w).2
  = (allSettled env
       ((fun ep => DataService.fetchWithRetry env ep DataService.default_retries)
        <$> ["/cities"; DataService.predictionsEndpoint env 100 None;
             "/analytics/metrics"; DataService.historicalEndpoint 24;
             "/traffic/realtime"; "/health"]) w).2.
Proof.
  change ((fun ep => DataService.fetchWithRetry env ep DataService.default_retries)
          <$> ["/cities"; DataService.predictionsEndpoint env 100 None;
               "/analytics/metrics"; DataService.historicalEndpoint 24;
               "/traffic/realtime"; "/health"])
    with [DataService.getCities env; DataService.getPredictions env 100 None;
          DataService.getMetrics env; DataService.getHistoricalData env 24;
          DataService.getRealtimeTraffic env; DataService.getHealthStatus env].
  unfold DataService.loadAllData, try_catch.
  unfold mbind, M_bind, bind, allSettled.
  cbn [fmap list_fmap foldr fst snd now]. unfold follow.
  destruct (DataService.getCities env w) as [[c|ec] w1];
  destruct (DataService.getPredictions env 100 None w) as [[p|ep] w2];
  destruct (DataService.getMetrics env w) as [[m|em] w3];
  destruct (DataService.getHistoricalData env 24 w) as [[h|eh] w4];
  destruct (DataService.getRealtimeTraffic env w) as [[r|er] w5];
  destruct (DataService.getHealthStatus env w) as [[he|ehe] w6];
  reflexivity.
Qed.

(** X9: one [loadAllData] makes at most 18 requests, three for each of
    its six endpoints, whatever the backend does, and calls no
    subscriber. *)
Theorem loadAllData_request_bound env w :
  let after := (DataService.loadAllData env w).2 in
  (network_calls (trace after) ≤ network_calls (trace w) + 18)%nat
  ∧ invocations (trace after) = invocations (trace w).
Proof.
  intros after. subst after. rewrite loadAllData_world.
  apply (allSettled_calls_quiet env
           ["/cities"; DataService.predictionsEndpoint env 100 None;
            "/analytics/metrics"; DataService.historicalEndpoint 24;
            "/traffic/realtime"; "/health"] w).
Qed.

(** X10: when the cache holds a fresh entry for each of the six
    endpoints, [loadAllData] returns the six cached values and leaves the
    world as it is: it makes no request at all. *)
Theorem loadAllData_all_fresh env w c p m h r he :
  fresh_entry w (cache_key env GetCities) c →
  fresh_entry w (cache_key env (GetPredictions 100 None)) p →
  fresh_entry w (cache_key env GetMetrics) m →
  fresh_entry w (cache_key env (GetHistoricalData 24)) h →
  fresh_entry w (cache_key env GetRealtimeTraffic) r →
  fresh_entry w (cache_key env GetHealthStatus) he →
  DataService.loadAllData env w
  = (Ok (DataService.mkDashboard (data c) (data p) (data m)
                                 (data h) (data r) (data he)), w).
Proof.
  intros [Hc Hc'] [Hp Hp'] [Hm Hm'] [Hh Hh'] [Hr Hr'] [Hhe Hhe'].
  assert (Hnone : filter (fun ke : string * CacheEntry =>
                            cache w !! ke.1 ≠ Some ke.2) (cache w) = ∅).
  { apply map_empty. intros key. apply map_lookup_filter_None_2.
    destruct (cache w !! key) as [e|] eqn:He; [right|by left].
    intros e' [= <-] Hne. cbn in Hne. by rewrite He in Hne. }
  unfold DataService.loadAllData, try_catch.
  unfold mbind, M_bind, bind, allSettled.
  cbn [fmap list_fmap foldr fst snd now]. unfold follow.
  unfold DataService.getCities, DataService.getPredictions,
    DataService.getMetrics, DataService.getHistoricalData,
    DataService.getRealtimeTraffic, DataService.getHealthStatus.
  cbn [cache_key] in *.
  rewrite (fetchWithRetry_fresh env _ _ w c Hc Hc').
  rewrite (fetchWithRetry_fresh env _ _ w p Hp Hp').
  rewrite (fetchWithRetry_fresh env _ _ w m Hm Hm').
  rewrite (fetchWithRetry_fresh env _ _ w h Hh Hh').
  rewrite (fetchWithRetry_fresh env _ _ w r Hr Hr').
  rewrite (fetchWithRetry_fresh env _ _ w he Hhe Hhe').
  cbn [outcome written finished timeline settled].
  rewrite Hnone, drop_all, !(left_id_L ∅ (∪)), !Z.max_id.
  cbn. rewrite app_nil_r. by destruct w.
Qed.

Lemma loadAllData_all_fresh_witness :
  let env := flaky_backend 0 (JArr [JNum 31]) nobody in
  let warm := at_time 1000 (DataService.loadAllData env cold_start).2 in
  (DataService.loadAllData env warm).2 = warm.
Proof.
  intros env warm.
  rewrite (loadAllData_all_fresh env warm
             (mkEntry (JArr [JNum 31]) 40) (mkEntry (JArr [JNum 31]) 40)
             (mkEntry (JArr [JNum 31]) 40) (mkEntry (JArr [JNum 31]) 40)
             (mkEntry (JArr [JNum 31]) 40) (mkEntry (JArr [JNum 31]) 40));
    [reflexivity|split; vm_compute; reflexivity..].
Defined.

(** ** Timers never leak *)

Lemma consistent_stopAll_empty h :
  consistent h →
  RealTimeManager.stopAll h
  = RealTimeManager.mkHub ∅ ∅ ∅ (RealTimeManager.next_handle h).
Proof.
  intros Hh. unfold RealTimeManager.stopAll. f_equal.
  apply map_empty. intros id.
  destruct (map_fold _ _ _ !! id) as [t|] eqn:Hid; [|done].
  apply stopAll_timers in Hid as [Hlive Hno].
  by apply (timers_owned h Hh), Hno in Hlive.
Qed.

(** X11: in every hub the page can be in, each live timer of the runtime
    is the one registered for its key, that key has at least one
    subscriber, and no two live timers poll the same key. *)
Theorem no_orphan_timers h :
  reachable h →
  (∀ id t, RealTimeManager.timers h !! id = Some t →
     RealTimeManager.intervals h !! RealTimeManager.timer_key t = Some id
     ∧ ∃ subs, RealTimeManager.subscribers h !! RealTimeManager.timer_key t
               = Some subs ∧ subs ≠ [])
  ∧ (∀ id1 id2 t1 t2,
       RealTimeManager.timers h !! id1 = Some t1 →
       RealTimeManager.timers h !! id2 = Some t2 →
       RealTimeManager.timer_key t1 = RealTimeManager.timer_key t2 →
       id1 = id2).
Proof.
  intros Hh%reachable_consistent. split.
  - intros id t Ht. pose proof (timers_owned h Hh id t Ht) as Hown.
    split; [done|].
    destruct (proj1 (same_keys h Hh _) (ex_intro _ id Hown)) as [subs Hs].
    exists subs. split; [done|]. by eapply sets_nonempty.
  - intros id1 id2 t1 t2 H1 H2 Hkey.
    pose proof (timers_owned h Hh id1 t1 H1) as Hown1.
    pose proof (timers_owned h Hh id2 t2 H2) as Hown2.
    rewrite Hkey in Hown1. congruence.
Qed.

Lemma no_orphan_timers_witness :
  let h := (RealTimeManager.run (flaky_backend 0 JNull nobody)
              [RealTimeManager.Subscribe "metrics" 1%nat 15000;
               RealTimeManager.Subscribe "health" 2%nat 30000;
               RealTimeManager.Subscribe "metrics" 3%nat 5000;
               RealTimeManager.Unsubscribe "health" 2%nat]
              (RealTimeManager.empty_hub, cold_start)).1 in
  RealTimeManager.intervals h !! "metrics" = Some 1%positive
  ∧ ∃ subs, RealTimeManager.subscribers h !! "metrics" = Some subs ∧ subs ≠ [].
Proof.
  intros h.
  destruct (no_orphan_timers h) as [H _].
  - exists (flaky_backend 0 JNull nobody),
      [RealTimeManager.Subscribe "metrics" 1%nat 15000;
       RealTimeManager.Subscribe "health" 2%nat 30000;
       RealTimeManager.Subscribe "metrics" 3%nat 5000;
       RealTimeManager.Unsubscribe "health" 2%nat], cold_start.
    reflexivity.
  - apply (H 1%positive (RealTimeManager.mkTimer "metrics" 15000)).
    reflexivity.
Defined.

(** X12: [stopAll] leaves no entry in either registry and no live timer;
    afterwards the unsubscribe functions handed out earlier do nothing,
    and so does the firing of any old timer handle. *)
Theorem stopAll_clears_everything h :
  reachable h →
  RealTimeManager.stopAll h
  = RealTimeManager.mkHub ∅ ∅ ∅ (RealTimeManager.next_handle h)
  ∧ (∀ key cb, RealTimeManager.unsubscribe key cb (RealTimeManager.stopAll h)
               = RealTimeManager.stopAll h)
  ∧ (∀ env id w,
       RealTimeManager.step env (RealTimeManager.Fire id)
                            (RealTimeManager.stopAll h, w)
       = (RealTimeManager.stopAll h, w)).
Proof.
  intros Hh%reachable_consistent. rewrite (consistent_stopAll_empty h Hh).
  split; [done|]. split.
  - intros key cb. unfold RealTimeManager.unsubscribe. cbn.
    by rewrite lookup_empty.
  - intros env id w. cbn. by rewrite lookup_empty.
Qed.

Lemma stopAll_clears_everything_witness :
  let h := (RealTimeManager.subscribe "metrics" 1%nat 15000
              RealTimeManager.empty_hub).2 in
  RealTimeManager.stopAll h = RealTimeManager.mkHub ∅ ∅ ∅ 2%positive.
Proof.
  intros h.
  destruct (stopAll_clears_everything h) as [H _]; [|exact H].
  exists (flaky_backend 0 JNull nobody),
    [RealTimeManager.Subscribe "metrics" 1%nat 15000], cold_start.
  reflexivity.
Defined.

(** X13: subscribing a callback that is not yet subscribed to the key
    and then calling the unsubscribe function it returned puts both
    registries and the live timers back as they were. *)
Theorem subscribe_unsubscribe_round_trip key cb ms h :
  reachable h →
  (∀ subs, RealTimeManager.subscribers h !! key = Some subs → cb ∉ subs) →
  let sub := RealTimeManager.subscribe key cb ms h in
  same_registries (sub.1 sub.2) h.
Proof.
  intros Hh%reachable_consistent Hnew sub. subst sub.
  change ((RealTimeManager.subscribe key cb ms h).1)
    with (RealTimeManager.unsubscribe key cb).
  destruct (RealTimeManager.intervals h !! key) as [id|] eqn:Hi.
  - assert (is_Some (RealTimeManager.subscribers h !! key)) as [subs Hs].
    { apply (same_keys h Hh). eauto. }
    pose proof (Hnew subs Hs) as Hcb.
    pose proof (sets_nonempty h Hh key subs Hs) as Hne.
    assert (Hsub : (RealTimeManager.subscribe key cb ms h).2
                   = RealTimeManager.mkHub (RealTimeManager.intervals h)
                       (<[key := RealTimeManager.set_add cb subs]>
                          (RealTimeManager.subscribers h))
                       (RealTimeManager.timers h) (RealTimeManager.next_handle h)).
    { unfold RealTimeManager.subscribe. cbn [snd]. by rewrite Hi, Hs. }
    rewrite Hsub. unfold RealTimeManager.unsubscribe.
    cbn [RealTimeManager.subscribers RealTimeManager.intervals
         RealTimeManager.timers RealTimeManager.next_handle].
    rewrite lookup_insert_eq.
    assert (Hdel : RealTimeManager.set_delete cb (RealTimeManager.set_add cb subs)
                   = subs).
    { unfold RealTimeManager.set_add. rewrite decide_False by done.
      unfold RealTimeManager.set_delete. rewrite filter_app.
      fold (RealTimeManager.set_delete cb subs).
      rewrite set_delete_absent by done.
      fold (RealTimeManager.set_delete cb [cb]).
      by rewrite set_delete_only, app_nil_r. }
    rewrite Hdel.
    destruct (Nat.eqb_spec (length subs) 0) as [Hlen|_].
    { by apply nil_length_inv in Hlen. }
    repeat split; cbn; try done.
    by rewrite insert_insert_eq, insert_id.
  - assert (Hs : RealTimeManager.subscribers h !! key = None).
    { destruct (RealTimeManager.subscribers h !! key) as [subs|] eqn:Hs; [|done].
      assert (is_Some (RealTimeManager.intervals h !! key)) as [? ?]
        by (apply (same_keys h Hh); eauto).
      congruence. }
    assert (Ht : RealTimeManager.timers h !! RealTimeManager.next_handle h = None).
    { destruct (RealTimeManager.timers h !! RealTimeManager.next_handle h)
        as [t|] eqn:Ht; [|done].
      pose proof (handles_fresh h Hh _ _ Ht). lia. }
    assert (Hsub : (RealTimeManager.subscribe key cb ms h).2
                   = RealTimeManager.mkHub
                       (<[key := RealTimeManager.next_handle h]>
                          (RealTimeManager.intervals h))
                       (<[key := [cb]]> (RealTimeManager.subscribers h))
                       (<[RealTimeManager.next_handle h
                          := RealTimeManager.mkTimer key ms]>
                          (RealTimeManager.timers h))
                       (Pos.succ (RealTimeManager.next_handle h))).
    { unfold RealTimeManager.subscribe. cbn [snd]. by rewrite Hi, Hs. }
    rewrite Hsub.
    rewrite (unsubscribe_last key cb [cb] (RealTimeManager.next_handle h)).
    + repeat split; cbn; by rewrite delete_insert_id.
    + cbn. by rewrite lookup_insert_eq.
    + apply set_delete_only.
    + cbn. by rewrite lookup_insert_eq.
Qed.

Lemma subscribe_unsubscribe_round_trip_witness :
  let h := (RealTimeManager.subscribe "metrics" 1%nat 15000
              RealTimeManager.empty_hub).2 in
  let sub := RealTimeManager.subscribe "metrics" 2%nat 5000 h in
  same_registries (sub.1 sub.2) h.
Proof.
  intros h.
  apply (subscribe_unsubscribe_round_trip "metrics" 2%nat 5000 h).
  - exists (flaky_backend 0 JNull nobody),
      [RealTimeManager.Subscribe "metrics" 1%nat 15000], cold_start.
    reflexivity.
  - intros subs Hs. vm_compute in Hs. injection Hs as <-.
    intros Hin. apply list_elem_of_singleton in Hin. discriminate.
Defined.

(** X14: the timer of an active key keeps its handle and its interval
    through every sequence of operations that contains no stopAll and no
    unsubscribe for the key, later subscribes with other intervals
    included, and stays the only timer of the key. *)
Theorem interval_fixed_while_active env key id t ops h w :
  reachable h →
  RealTimeManager.intervals h !! key = Some id →
  RealTimeManager.timers h !! id = Some t →
  Forall (spares key) ops →
  let st := RealTimeManager.run env ops (h, w) in
  RealTimeManager.intervals st.1 !! key = Some id
  ∧ RealTimeManager.timers st.1 !! id = Some t
  ∧ RealTimeManager.timers_of key st.1 = {[ id := t ]}.
Proof.
  intros Hh%reachable_consistent Hi Ht Hops st.
  destruct (timer_survives env key id t ops (h, w)) as [Hi' Ht']; [done..|].
  split; [done|]. split; [done|].
  apply timers_of_active; [|done..]. by apply consistent_run.
Qed.

Lemma interval_fixed_while_active_witness :
  let env := flaky_backend 0 JNull nobody in
  let h := (RealTimeManager.subscribe "metrics" 1%nat 5000
              RealTimeManager.empty_hub).2 in
  let st := RealTimeManager.run env
              [RealTimeManager.Subscribe "metrics" 2%nat 15000;
               RealTimeManager.Subscribe "health" 3%nat 30000;
               RealTimeManager.Unsubscribe "health" 3%nat;
               RealTimeManager.Fire 1%positive]
              (h, cold_start) in
  RealTimeManager.timers_of "metrics" st.1
  = {[ 1%positive := RealTimeManager.mkTimer "metrics" 5000 ]}.
Proof.
  intros env h.
  apply (interval_fixed_while_active env "metrics" 1%positive
           (RealTimeManager.mkTimer "metrics" 5000)).
  - exists env, [RealTimeManager.Subscribe "metrics" 1%nat 5000], cold_start.
    reflexivity.
  - reflexivity.
  - reflexivity.
  - repeat constructor. discriminate.
Defined.

(** ** Ticks *)

Lemma poll_spec env key w :
  RealTimeManager.poll env key w
  = match stream_endpoint env key with
    | Some endpoint =>
      match DataService.fetchWithRetry env endpoint DataService.default_retries w with
      | (Ok v, w') => (Ok (Some v), w')
      | (Throw e, w') => (Throw e, w')
      end
    | None => (Ok None, w)
    end.
Proof.
  unfold RealTimeManager.poll, stream_endpoint.
  destruct (String.eqb key "predictions");
    [|destruct (String.eqb key "metrics");
      [|destruct (String.eqb key "realtime");
        [|destruct (String.eqb key "health"); [|done]]]];
    unfold mbind, M_bind, bind, DataService.getPredictions,
      DataService.getMetrics, DataService.getRealtimeTraffic,
      DataService.getHealthStatus; cbn [cache_key];
    by destruct (DataService.fetchWithRetry _ _ _ _) as [[v|e] w'].
Qed.

Lemma network_calls_invoke payload (subs : list Callback) :
  network_calls ((fun cb => EInvoke cb payload) <$> subs) = 0%nat.
Proof. induction subs as [|cb subs IH]; [done|]. by cbn. Qed.

(** What a tick does once its poll is over. *)
Lemma tick_after_poll env h key w :
  let polled := RealTimeManager.poll env key w in
  ∃ w2,
    RealTimeManager.tick env h key w = (Ok tt, w2)
    ∧ cache w2 = cache polled.2
    ∧ network_calls (trace w2) = network_calls (trace polled.2)
    ∧ invocations (trace w2)
      = invocations (trace polled.2)
        ++ match polled.1, RealTimeManager.subscribers h !! key with
           | Ok (Some payload), Some subs =>
             (fun cb => (cb, payload)) <$> up_to_first_throw env subs payload
           | _, _ => []
           end.
Proof.
  intros polled. subst polled.
  unfold RealTimeManager.tick, try_catch, mbind, M_bind, bind.
  destruct (RealTimeManager.poll env key w) as [[[payload|]|e] w1]; cbn [fst snd].
  - destruct (RealTimeManager.subscribers h !! key) as [subs|].
    + destruct (forEach_trace env payload subs w1) as [r ->].
      destruct r as [[]|e]; unfold console_error, emit; cbn [fst snd];
        (eexists; split; [done|]); cbn [cache trace];
        rewrite ?network_calls_app, ?invocations_app, network_calls_invoke,
          invocations_invoke;
        cbn [network_calls List.filter is_fetch length invocations omap list_omap];
        rewrite ?app_nil_r; (split; [done|]); (split; [lia|done]).
    + eexists. split; [done|]. by rewrite app_nil_r.
  - eexists. split; [done|]. by rewrite app_nil_r.
  - unfold console_error, emit. eexists. split; [done|]. cbn [cache trace].
    rewrite network_calls_app, invocations_app.
    cbn [network_calls List.filter is_fetch length invocations omap list_omap].
    rewrite !app_nil_r. split; [done|]. split; [lia|done].
Qed.

Lemma tick_poll_failed env h key w e :
  (RealTimeManager.poll env key w).1 = Throw e →
  (RealTimeManager.tick env h key w).2
  = mkWorld (cache (RealTimeManager.poll env key w).2)
            (now (RealTimeManager.poll env key w).2)
            (trace (RealTimeManager.poll env key w).2 ++ [tick_failed key e]).
Proof.
  unfold RealTimeManager.tick, try_catch, mbind, M_bind, bind.
  destruct (RealTimeManager.poll env key w) as [[polled|e'] w1]; cbn [fst snd];
    [done|]. by intros [= ->].
Qed.

(** X15: a tick never raises, for any key, hub and backend: a failed
    fetch and a throwing subscriber are caught and logged, so the timer
    keeps firing.  It makes at most three requests, and when its fetch
    fails with nothing cached no subscriber is called and the error of
    the fetch is the one line the tick logs. *)
Theorem tick_never_raises env h key w :
  ∃ w2,
    RealTimeManager.tick env h key w = (Ok tt, w2)
    ∧ (network_calls (trace w2) ≤ network_calls (trace w) + 3)%nat
    ∧ (∀ e, (RealTimeManager.poll env key w).1 = Throw e →
            invocations (trace w2) = invocations (trace w))
    ∧ (∀ e, (RealTimeManager.poll env key w).1 = Throw e →
            trace w2
            = trace (RealTimeManager.poll env key w).2 ++ [tick_failed key e]).
Proof.
  destruct (tick_after_poll env h key w) as (w2 & Htick & _ & Hn & Hinv).
  exists w2. split; [done|].
  assert (Hlog : ∀ e, (RealTimeManager.poll env key w).1 = Throw e →
            trace w2
            = trace (RealTimeManager.poll env key w).2 ++ [tick_failed key e]).
  { intros e He. pose proof (tick_poll_failed env h key w e He) as Hw.
    rewrite Htick in Hw. cbn [snd] in Hw. by rewrite Hw. }
  cut ((network_calls (trace w2) ≤ network_calls (trace w) + 3)%nat
       ∧ (∀ e, (RealTimeManager.poll env key w).1 = Throw e →
               invocations (trace w2) = invocations (trace w))).
  { intros [? ?]. done. }
  clear Hlog. rewrite Hn, Hinv. clear Htick Hn Hinv.
  rewrite poll_spec. destruct (stream_endpoint env key) as [endpoint|].
  - destruct (call_request_bound env endpoint DataService.default_retries w)
      as (Hb & _ & Hi).
    destruct (DataService.fetchWithRetry env endpoint DataService.default_retries w)
      as [[v|e] w1]; cbn [fst snd] in *;
      unfold DataService.default_retries in Hb; (split; [lia|]); [done|].
    intros _ _. by rewrite app_nil_r.
  - cbn [fst snd]. split; [lia|done].
Qed.

(** X16: while the entry of a stream's endpoint is fresh, a tick for the
    stream makes no request: it hands the cached value to the
    subscribers, up to the first that throws, and leaves the cache as it
    is.  Polling faster than the cache timeout re-delivers the cached
    value. *)
Theorem tick_served_from_cache env h key endpoint c subs w :
  stream_endpoint env key = Some endpoint →
  fresh_entry w endpoint c →
  RealTimeManager.subscribers h !! key = Some subs →
  ∃ w2,
    RealTimeManager.tick env h key w = (Ok tt, w2)
    ∧ cache w2 = cache w
    ∧ network_calls (trace w2) = network_calls (trace w)
    ∧ invocations (trace w2)
      = invocations (trace w)
        ++ ((fun cb => (cb, data c)) <$> up_to_first_throw env subs (data c)).
Proof.
  intros Hep [Hc Hfresh] Hs.
  destruct (tick_after_poll env h key w) as (w2 & Htick & Hcache & Hn & Hinv).
  exists w2. split; [done|].
  rewrite poll_spec, Hep in Hcache, Hn, Hinv.
  rewrite (fetchWithRetry_fresh env endpoint _ w c Hc Hfresh) in Hcache, Hn, Hinv.
  cbn [fst snd] in *. by rewrite Hs in Hinv.
Qed.

Lemma tick_served_from_cache_witness :
  let env := flaky_backend 0 (JObj [("accuracy", JNum 93)]) nobody in
  let h := subscribe_all "metrics" [(1%nat, 5000); (2%nat, 15000)]
                         RealTimeManager.empty_hub in
  let warm := at_time 10000 (RealTimeManager.tick env h "metrics" cold_start).2 in
  ∃ w2, RealTimeManager.tick env h "metrics" warm = (Ok tt, w2)
        ∧ network_calls (trace w2) = network_calls (trace warm).
Proof.
  intros env h warm.
  destruct (tick_served_from_cache env h "metrics" "/analytics/metrics"
              (mkEntry (JObj [("accuracy", JNum 93)]) 40) [1%nat; 2%nat] warm)
    as (w2 & Htick & _ & Hn & _).
  - reflexivity.
  - split; vm_compute; reflexivity.
  - reflexivity.
  - exists w2. split; [exact Htick|exact Hn].
Defined.

(** ** Speed classes *)

Lemma number_ge_weaken x (a b : Q) :
  (a <= b)%Q → number_ge x b = true → number_ge x a = true.
Proof.
  intros Hab. destruct x as [q| | |]; cbn; try done.
  rewrite !Qle_bool_iff. intros Hb. by apply (Qle_trans a b q).
Qed.

Lemma number_ge_mono (q1 q2 b : Q) :
  (q1 <= q2)%Q → number_ge (Finite q1) b = true → number_ge (Finite q2) b = true.
Proof.
  cbn. rewrite !Qle_bool_iff. intros H12 Hb. by apply (Qle_trans b q1 q2).
Qed.

(** X17: the two classifications of a speed agree with each other and
    with the order of speeds: a [fast] speed has [normal] traffic, [heavy]
    traffic means a [slow] speed, a higher finite speed never gets a
    worse class, and [NaN] falls into the worst class of both. *)
Theorem speed_classes_agree :
  (∀ s, getSpeedCategory s = fast → getTrafficStatus s = normal)
  ∧ (∀ s, getTrafficStatus s = heavy → getSpeedCategory s = slow)
  ∧ (∀ q1 q2, (q1 <= q2)%Q →
       (category_rank (getSpeedCategory (Finite q1))
        ≤ category_rank (getSpeedCategory (Finite q2)))%nat
       ∧ (status_rank (getTrafficStatus (Finite q1))
          ≤ status_rank (getTrafficStatus (Finite q2)))%nat)
  ∧ getSpeedCategory NaN = slow ∧ getTrafficStatus NaN = heavy.
Proof.
  split; [|split; [|split; [|done]]].
  - intros s. unfold getSpeedCategory, getTrafficStatus.
    destruct (number_ge s 25) eqn:H25.
    + intros _. by rewrite (number_ge_weaken s 20 25).
    + by destruct (number_ge s 15).
  - intros s. unfold getSpeedCategory, getTrafficStatus.
    destruct (number_ge s 25) eqn:H25.
    { by rewrite (number_ge_weaken s 20 25). }
    destruct (number_ge s 15) eqn:H15; [|done].
    destruct (number_ge s 20); [done|].
    by rewrite (number_ge_weaken s 10 15).
  - intros q1 q2 Hq. unfold getSpeedCategory, getTrafficStatus. split.
    + destruct (number_ge (Finite q1) 25) eqn:Ha.
      { by rewrite (number_ge_mono q1 q2 25). }
      destruct (number_ge (Finite q1) 15) eqn:Hb.
      { rewrite (number_ge_mono q1 q2 15) by done.
        destruct (number_ge (Finite q2) 25); cbn; lia. }
      cbn. lia.
    + destruct (number_ge (Finite q1) 20) eqn:Ha.
      { by rewrite (number_ge_mono q1 q2 20). }
      destruct (number_ge (Finite q1) 10) eqn:Hb.
      { rewrite (number_ge_mono q1 q2 10) by done.
        destruct (number_ge (Finite q2) 20); cbn; lia. }
      cbn. lia.
Qed.

Lemma speed_classes_agree_witness :
  getTrafficStatus (Finite 30) = normal ∧ getSpeedCategory (Finite 7) = slow.
Proof.
  destruct speed_classes_agree as (Hfast & Hheavy & _).
  split; [apply Hfast|apply Hheavy]; reflexivity.
Defined.

Lemma fetchWithRetry_request_bound_witness :
  let after := (DataService.fetchWithRetry (flaky_backend 3 JNull nobody)
                  "/cities" 3 cold_start).2 in
  requests_to (url_of "/health") (trace after)
  = requests_to (url_of "/health") (trace cold_start).
Proof.
  destruct (fetchWithRetry_request_bound (flaky_backend 3 JNull nobody)
              "/cities" 3 cold_start) as (_ & Hother & _).
  apply Hother. discriminate.
Defined.


Lemma getCacheInfo_after_call_witness :
  let after := (perform (flaky_backend 0 (JNum 7) nobody) GetHealthStatus
                  stale_page).2 in
  ∃ info, DataService.getCacheInfo after = (Ok info, after)
          ∧ "/cities" ∈ DataService.keys info.
Proof.
  destruct (getCacheInfo_after_call (flaky_backend 0 (JNum 7) nobody)
              GetHealthStatus stale_page)
    as (before_info & after_info & Hb & Ha & _ & _ & _ & Hsub & _).
  exists after_info. split; [exact Ha|].
  apply Hsub. injection Hb as <-. vm_compute. apply list_elem_of_here.
Defined.

Lemma tick_never_raises_witness :
  let env := flaky_backend 3 JNull nobody in
  let h := subscribe_all "health" [(1%nat, 5000)] RealTimeManager.empty_hub in
  ∃ w2, RealTimeManager.tick env h "health" cold_start = (Ok tt, w2)
        ∧ invocations (trace w2) = invocations (trace cold_start)
        ∧ last (trace w2)
          = Some (tick_failed "health"
                    (HttpError "HTTP 500: Internal Server Error")).
Proof.
  intros env h.
  destruct (tick_never_raises env h "health" cold_start)
    as (w2 & Htick & _ & Hinv & Hlog).
  exists w2. split; [exact Htick|]. split.
  - apply (Hinv (HttpError "HTTP 500: Internal Server Error")). reflexivity.
  - rewrite (Hlog (HttpError "HTTP 500: Internal Server Error")); reflexivity.
Defined.

(** ** Streams do not interfere *)

(** X18: subscribing to a key or unsubscribing from it leaves every
    other key as it was: the same subscribers, the same timer handle and
    the same live timer with its interval. *)
Theorem streams_are_independent env key key' cb ms h w :
  reachable h →
  key ≠ key' →
  ∀ op, op = RealTimeManager.Subscribe key cb ms
        ∨ op = RealTimeManager.Unsubscribe key cb →
  let h' := (RealTimeManager.step env op (h, w)).1 in
  RealTimeManager.subscribers h' !! key' = RealTimeManager.subscribers h !! key'
  ∧ RealTimeManager.intervals h' !! key' = RealTimeManager.intervals h !! key'
  ∧ RealTimeManager.timers_of key' h' = RealTimeManager.timers_of key' h.
Proof.
  intros Hh%reachable_consistent Hne op Hop h'.
  assert (Hh' : consistent h') by (by apply (consistent_step env op (h, w))).
  assert (Hspare : spares key' op).
  { destruct Hop as [-> | ->]; cbn; done. }
  assert (Hsubs : RealTimeManager.subscribers h' !! key'
                  = RealTimeManager.subscribers h !! key').
  { subst h'. destruct Hop as [-> | ->]; cbn [RealTimeManager.step fst].
    - unfold RealTimeManager.subscribe. cbn [snd].
      destruct (RealTimeManager.intervals h !! key);
        cbn [RealTimeManager.subscribers]; by rewrite lookup_insert_ne.
    - unfold RealTimeManager.unsubscribe.
      destruct (RealTimeManager.subscribers h !! key) as [subs|]; [|done].
      destruct (length (RealTimeManager.set_delete cb subs) =? 0)%nat.
      + destruct (RealTimeManager.intervals h !! key);
          cbn [RealTimeManager.subscribers]; by rewrite lookup_delete_ne.
      + cbn [RealTimeManager.subscribers]. by rewrite lookup_insert_ne. }
  split; [done|].
  destruct (RealTimeManager.intervals h !! key') as [id|] eqn:Hi.
  - destruct (handles_live h Hh key' id Hi) as [ms' Ht].
    destruct (timer_survives_step env key' id _ op (h, w) Hh Hspare Hi Ht)
      as [Hi' Ht'].
    fold h' in Hi', Ht'. split; [done|].
    rewrite (timers_of_active key' id _ h' Hh' Hi' Ht').
    by rewrite (timers_of_active key' id _ h Hh Hi Ht).
  - assert (Hi' : RealTimeManager.intervals h' !! key' = None).
    { destruct (RealTimeManager.intervals h' !! key') as [id|] eqn:Hi'; [|done].
      assert (is_Some (RealTimeManager.subscribers h' !! key')) as [subs Hs]
        by (apply (same_keys h' Hh'); eauto).
      rewrite Hsubs in Hs.
      assert (is_Some (RealTimeManager.intervals h !! key')) as [? ?]
        by (apply (same_keys h Hh); eauto).
      congruence. }
    split; [done|].
    by rewrite (timers_of_inactive key' h' Hh' Hi'), (timers_of_inactive key' h Hh Hi).
Qed.

Lemma streams_are_independent_witness :
  let env := flaky_backend 0 JNull nobody in
  let h := (RealTimeManager.subscribe "metrics" 1%nat 15000
              RealTimeManager.empty_hub).2 in
  let h' := (RealTimeManager.step env (RealTimeManager.Subscribe "health" 2%nat 30000)
               (h, cold_start)).1 in
  RealTimeManager.timers_of "metrics" h' = RealTimeManager.timers_of "metrics" h.
Proof.
  intros env h.
  destruct (streams_are_independent env "health" "metrics" 2%nat 30000 h cold_start)
    with (op := RealTimeManager.Subscribe "health" 2%nat 30000) as (_ & _ & H).
  - exists env, [RealTimeManager.Subscribe "metrics" 1%nat 15000], cold_start.
    reflexivity.
  - discriminate.
  - left. reflexivity.
  - exact H.
Defined.

(** ** A tick while the backend is down *)

(** X19: when the three attempts of a tick's fetch fail and the cache
    still holds an entry for the stream's endpoint, however old, the tick
    hands that stale value to the subscribers, up to the first that
    throws, after exactly three requests, and leaves the cache as it is. *)
Theorem tick_delivers_stale_on_failure env h key endpoint c subs w :
  stream_endpoint env key = Some endpoint →
  cache w !! endpoint = Some c →
  DataService.cacheTimeout ≤ now w - timestamp c →
  all_fail env (url_of endpoint) (requests_to (url_of endpoint) (trace w)) 3 →
  RealTimeManager.subscribers h !! key = Some subs →
  ∃ w2,
    RealTimeManager.tick env h key w = (Ok tt, w2)
    ∧ cache w2 = cache w
    ∧ network_calls (trace w2) = (network_calls (trace w) + 3)%nat
    ∧ invocations (trace w2)
      = invocations (trace w)
        ++ ((fun cb => (cb, data c)) <$> up_to_first_throw env subs (data c)).
Proof.
  intros Hep Hc Hstale Hfail Hs.
  assert (Hmiss : no_fresh_entry w endpoint).
  { unfold no_fresh_entry. by rewrite Hc. }
  destruct (tick_after_poll env h key w) as (w2 & Htick & Hcache & Hn & Hinv).
  exists w2. split; [done|].
  rewrite poll_spec, Hep in Hcache, Hn, Hinv.
  destruct (call_request_bound env endpoint DataService.default_retries w)
    as (_ & _ & Hquiet).
  destruct (fetchWithRetry_cases env endpoint DataService.default_retries w)
    as [(c' & Hc' & Hfresh & _)|[(_ & Hz & _)|[(_ & k & v' & Hk & _ & Hv & _)
                                              |(_ & _ & _ & Hr & Hkeep & Hcalls & _)]]].
  - rewrite Hc in Hc'. injection Hc' as <-. lia.
  - discriminate.
  - exfalso. by apply (all_fail_no_payload env _ _ 3 k v' Hfail).
  - rewrite Hc in Hr.
    destruct (DataService.fetchWithRetry env endpoint DataService.default_retries w)
      as [r w1]; cbn [fst snd] in *. subst r. cbn [fst snd] in *.
    rewrite Hs in Hinv.
    by rewrite Hcache, Hn, Hinv, Hkeep, Hcalls, Hquiet.
Qed.

Lemma tick_delivers_stale_on_failure_witness :
  let env := flaky_backend 3 JNull nobody in
  let h := subscribe_all "health" [(1%nat, 30000)] RealTimeManager.empty_hub in
  let w := mkWorld {[ "/health" := mkEntry (JStr "ok") 0 ]} 400000 [] in
  ∃ w2, RealTimeManager.tick env h "health" w = (Ok tt, w2)
        ∧ invocations (trace w2) = [(1%nat, JStr "ok")].
Proof.
  intros env h w.
  destruct (tick_delivers_stale_on_failure env h "health" "/health"
              (mkEntry (JStr "ok") 0) [1%nat] w)
    as (w2 & Htick & _ & _ & Hinv).
  - reflexivity.
  - reflexivity.
  - vm_compute. discriminate.
  - intros j Hj. destruct j as [|[|[|j]]]; (reflexivity || lia).
  - reflexivity.
  - exists w2. split; [exact Htick|]. rewrite Hinv. reflexivity.
Defined.
